(** * mini_gland_00.py: duct tables, duct-wall assembly and cell seeding

    A shallow embedding of the geometric and stochastic part of the Blender
    script [mini_gland_00.py].

    Conventions of the model:
    - Python floats are read as mathematical reals ([R]); rounding is not
      modelled.
    - [mathutils.Vector] is a record of three reals.
    - The module-level generator behind [random.uniform] is a stream of unit
      draws [rng : nat -> R] together with a read position kept in the state;
      [random.uniform(a, b)] is [a + (b - a) * random()], as in CPython.
    - Host (bpy) operators are recorded symbolically: meshes as constructive
      solid geometry terms, duplicated cells as records.
    - Python exceptions are values of [Exn]; the state survives a raise.
    - Materials made by [bpy.data.materials.new] are not recorded, only the
      colour a cell receives; table indices are natural numbers, as in the
      tables of the script, so negative indexing is not modelled. *)

From Stdlib Require Import Reals Lra Lia List Bool Arith ZArith String.
Import ListNotations.

Open Scope R_scope.

(** ** Vectors *)

Record Vector : Type := mkVector { vx : R; vy : R; vz : R }.

Definition vadd (a b : Vector) : Vector :=
  mkVector (vx a + vx b) (vy a + vy b) (vz a + vz b).

Definition vsub (a b : Vector) : Vector :=
  mkVector (vx a - vx b) (vy a - vy b) (vz a - vz b).

Definition vdiv (a : Vector) (k : R) : Vector :=
  mkVector (vx a / k) (vy a / k) (vz a / k).

(** [Vector.length] *)
Definition length (a : Vector) : R :=
  sqrt (vx a * vx a + vy a * vy a + vz a * vz a).

(** ** Class (structure) definitions *)

(** The three keys of the [cell_types] dictionary. *)
Inductive CType : Type := acinar | intercalated | striated.

Definition CType_eqb (a b : CType) : bool :=
  match a, b with
  | acinar, acinar | intercalated, intercalated | striated, striated => true
  | _, _ => false
  end.

(** duct segment end-point structure *)
Record cPts : Type := mkPts { position : Vector; radius : R }.

(** duct segment structure *)
Record cDseg : Type := mkDseg { idx_out : nat; idx_in : nat; ctype : CType }.

(** ** Global constants *)

Record CellType : Type :=
  mkCellType { color : R * R * R * R; pressure : R; stiffness : R }.

Definition cell_types (k : CType) : CellType :=
  match k with
  | acinar => mkCellType (1.000, 0.055, 0.060, 1.0) 1.8 0.20
  | intercalated => mkCellType (1.000, 0.100, 0.120, 1.0) 1.2 0.11
  | striated => mkCellType (1.000, 0.200, 0.240, 1.0) 1.2 0.11
  end.

Definition PTS : list cPts :=
  [ mkPts (mkVector 0.0 0.0 0.0) 4.0;
    mkPts (mkVector 0.0 0.0 10.0) 3.7;
    mkPts (mkVector 0.0 0.0 20.0) 1.5;
    mkPts (mkVector 0.0 0.0 40.0) 1.5;
    mkPts (mkVector 0.0 0.0 45.0) 0.7;
    mkPts (mkVector 0.0 0.0 52.0) 0.05 ].

Definition DSEG : list cDseg :=
  [ mkDseg 0 1 striated;
    mkDseg 1 2 striated;
    mkDseg 2 3 intercalated;
    mkDseg 3 4 intercalated;
    mkDseg 4 5 acinar ].

Definition C_RADIUS : R := 1.
Definition C_OFFSET : R := 1.5 * C_RADIUS.
Definition A_RADIUS : R := 8.0.
Definition EPSILON : R := 0.005.

(** ** Exceptions and the state-and-exception monad *)

Inductive Exn : Type := IndexError | ZeroDivisionError | AttributeError.

Inductive Res (A : Type) : Type :=
| Ok (a : A)
| Raise (e : Exn).
Arguments Ok {A} a.
Arguments Raise {A} e.

(** [PTS[i]] for a non-negative index. *)
Definition PTS_at (i : nat) : Res cPts :=
  match nth_error PTS i with
  | Some p => Ok p
  | None => Raise IndexError
  end.

(** ** Duct-wall builder *)

(** Meshes built through the host operators, kept as terms. *)
Inductive Mesh : Type :=
| IcoSphere (subdivisions : nat) (rad : R) (location scale : Vector)
| Cone (radius1 radius2 depth : R) (location track : Vector)
| Union (obj operand : Mesh)        (* boolean modifier, operation UNION *)
| Remesh (octree_depth : nat) (m : Mesh)
| FlipNormals (m : Mesh).

(** The finished wall object. *)
Record Duct : Type :=
  mkDuct { duct_name : string; duct_mesh : Mesh;
           duct_collision : bool; duct_collection : string }.

(** [combine(prev)] applied to the current object [cur]. *)
Definition combine (cur prev : Mesh) : Mesh := Union cur prev.

(** [create_seg(p1, r1, p2, r2)]; the rotation is recorded by the vector it
    tracks. *)
Definition create_seg (p1 : Vector) (r1 : R) (p2 : Vector) (r2 : R) : Mesh :=
  let d := length (vsub p2 p1) in
  let l := vadd p1 (vdiv (vsub p2 p1) 2.0) in
  Cone r1 r2 d l (vsub p2 p1).

Definition Reqb (x y : R) : bool := if Req_dec_T x y then true else false.

(** [not(offset == 0) and s.ctype == "acinar"] *)
Definition outer_acinus (offset : R) (s : cDseg) : bool :=
  negb (Reqb offset 0) && CType_eqb (ctype s) acinar.

(** The value bound to [r2] in the body of [for s in DSEG]. *)
Definition duct_r2 (offset : R) (s : cDseg) (p_in : cPts) : R :=
  if outer_acinus offset s then A_RADIUS else radius p_in + offset.

(** The body of [for s in DSEG] in [create_duct]. *)
Definition duct_step (offset : R) (prev : option Mesh) (s : cDseg)
  : Res Mesh :=
  match PTS_at (idx_out s) with
  | Raise e => Raise e
  | Ok p_out =>
      match PTS_at (idx_in s) with
      | Raise e => Raise e
      | Ok p_in =>
          let p1 := position p_out in
          let r1 := radius p_out + offset in
          let p2 := position p_in in
          let r2 := duct_r2 offset s p_in in
          let sphere :=
            IcoSphere 4 ((1.0 + EPSILON) * r2) p2
                      (if outer_acinus offset s then mkVector 1.0 1.0 1.5
                       else mkVector 1 1 1) in
          let prev1 :=
            match prev with
            | None => sphere
            | Some m => combine sphere m
            end in
          Ok (combine (create_seg p1 r1 p2 r2) prev1)
      end
  end.

Fixpoint duct_loop (offset : R) (prev : option Mesh) (segs : list cDseg)
  : Res (option Mesh) :=
  match segs with
  | [] => Ok prev
  | s :: rest =>
      match duct_step offset prev s with
      | Raise e => Raise e
      | Ok m => duct_loop offset (Some m) rest
      end
  end.

Definition create_duct (offset : R) : Res Duct :=
  match duct_loop offset None DSEG with
  | Raise e => Raise e
  | Ok None => Raise AttributeError
  | Ok (Some prev) =>
      let name := if Reqb offset 0 then "InnerWall"%string
                  else "OuterWall"%string in
      let m := Remesh 7 prev in
      let m := if negb (Reqb offset 0) then FlipNormals m else m in
      Ok (mkDuct name m true "Duct"%string)
  end.

(** The primitives of a mesh term, in the order the script created them. *)
Fixpoint primitives (m : Mesh) : list Mesh :=
  match m with
  | Union obj operand => primitives operand ++ primitives obj
  | Remesh _ m' => primitives m'
  | FlipNormals m' => primitives m'
  | _ => [m]
  end.

(** ** too_close *)

Fixpoint too_close (cell_centers : list Vector) (p : Vector) (dist : R) : bool :=
  match cell_centers with
  | [] => false
  | c :: rest =>
      if Rlt_dec (length (vsub p c)) dist then true
      else too_close rest p dist
  end.

(** The acceptance guard of [create_seg_cells]:
    [len(cell_centers)==0 or not too_close(p, dist)]. *)
Definition accept (cell_centers : list Vector) (p : Vector) (dist : R) : bool :=
  (Nat.eqb (List.length cell_centers) 0) || negb (too_close cell_centers p dist).

(** The guard with the bootstrap disjunct removed: [not too_close(p, dist)]. *)
Definition accept_no_bootstrap
  (cell_centers : list Vector) (p : Vector) (dist : R) : bool :=
  negb (too_close cell_centers p dist).

(** ** Global variables and the recorded host state *)

(** The local variables of one candidate attempt of [create_seg_cells]. *)
Inductive Attempt : Type :=
| AcinarTry (a1 a2 : R) (p : Vector)
| DuctTry (a1 z r : R) (p : Vector).

Definition attempt_point (a : Attempt) : Vector :=
  match a with
  | AcinarTry _ _ p => p
  | DuctTry _ _ _ p => p
  end.

(** One entry of the run's trace: the segment being seeded, the candidate
    drawn and whether the guard accepted it. *)
Record Event : Type :=
  mkEvent { ev_seg : cDseg; ev_try : Attempt; ev_accepted : bool }.

(** A duplicate of the prototype cell as configured by [create_seg_cells]. *)
Record Cell : Type :=
  mkCell { cell_material : R * R * R * R;
           cell_location : Vector;
           cell_scale : Vector;
           cell_pressure : R;
           cell_stiffness : R }.

Record State : Type :=
  mkState { cell_centers : list Vector;   (* the global registry *)
            rpos : nat;                   (* draws consumed from the generator *)
            cells : list Cell;            (* objects added to the scene *)
            stdout : list Z;              (* diagnostic prints *)
            trace : list Event }.         (* ghost: every candidate, in order *)

Definition init_state : State := mkState [] 0 [] [] [].

Definition M (A : Type) : Type := State -> Res A * State.

Definition ret {A} (a : A) : M A := fun st => (Ok a, st).

Definition raise {A} (e : Exn) : M A := fun st => (Raise e, st).

Definition bind {A B} (m : M A) (f : A -> M B) : M B :=
  fun st =>
    match m st with
    | (Ok a, st') => f a st'
    | (Raise e, st') => (Raise e, st')
    end.

Definition lift {A} (r : Res A) : M A := fun st => (r, st).

Notation "x <- m ;; k" := (bind m (fun x => k))
  (at level 61, m at next level, right associativity).
Notation "m ;;; k" := (bind m (fun _ => k))
  (at level 61, right associativity).

(** [cell_centers.append(p)] *)
Definition append_center (p : Vector) : M unit :=
  fun st => (Ok tt, mkState (cell_centers st ++ [p]) (rpos st) (cells st)
                            (stdout st) (trace st)).

(** [bpy.ops.object.duplicate()] followed by the assignments to the copy. *)
Definition add_cell (c : Cell) : M unit :=
  fun st => (Ok tt, mkState (cell_centers st) (rpos st) (cells st ++ [c])
                            (stdout st) (trace st)).

Definition print (j : Z) : M unit :=
  fun st => (Ok tt, mkState (cell_centers st) (rpos st) (cells st)
                            (stdout st ++ [j]) (trace st)).

Definition log (e : Event) : M unit :=
  fun st => (Ok tt, mkState (cell_centers st) (rpos st) (cells st)
                            (stdout st) (trace st ++ [e])).

Definition get_centers : M (list Vector) :=
  fun st => (Ok (cell_centers st), st).

(** The minimum distances passed to [too_close] in the two branches. *)
Definition min_dist (t : CType) : R :=
  match t with
  | acinar => 2.8 * C_RADIUS
  | _ => 2.5 * C_RADIUS
  end.

(** The cone radius followed by duct seeds: [((z-z1)/z12)*r12 + r1]. *)
Definition cone_radius (z1 z12 r1 r12 z : R) : R :=
  ((z - z1) / z12) * r12 + r1.

(** Lines 168-173: the per-segment quantities. *)
Record SegGeom : Type :=
  mkGeom { g_in : Vector; g_z1 : R; g_z2 : R; g_r1 : R; g_r2 : R }.

Definition g_r12 (g : SegGeom) : R := g_r2 g - g_r1 g.
Definition g_z12 (g : SegGeom) : R := g_z2 g - g_z1 g.

Definition seg_geom (s : cDseg) : Res SegGeom :=
  match PTS_at (idx_out s), PTS_at (idx_in s) with
  | Ok po, Ok pi =>
      Ok (mkGeom (position pi) (vz (position po)) (vz (position pi))
                 (radius po + C_OFFSET) (radius pi + C_OFFSET))
  | Raise e, _ => Raise e
  | _, Raise e => Raise e
  end.

Section Sampler.

(** The stream of values returned by successive calls of [random.random()]. *)
Variable rng : nat -> R.

(** [random.uniform(a, b)] *)
Definition uniform (a b : R) : M R :=
  fun st => (Ok (a + (b - a) * rng (rpos st)),
             mkState (cell_centers st) (S (rpos st)) (cells st)
                     (stdout st) (trace st)).

(** The acinar branch of the retry loop body, up to the candidate [p]. *)
Definition acinar_try (g : SegGeom) : M Attempt :=
  a1 <- uniform 0.0 (2.0 * PI) ;;
  a2 <- uniform 0.0 (0.8 * PI) ;;
  let r := 3.5 * C_RADIUS in
  ret (AcinarTry a1 a2
         (vadd (g_in g)
               (mkVector (r * sin a2 * cos a1) (r * sin a2 * sin a1)
                         (1.5 * r * cos a2)))).

(** The duct branch of the retry loop body, up to the candidate [p]. *)
Definition duct_try (g : SegGeom) : M Attempt :=
  a1 <- uniform 0.0 (2.0 * PI) ;;
  z <- uniform (g_z1 g + C_RADIUS) (g_z2 g) ;;
  f <- uniform 0.95 1.05 ;;
  if Req_dec_T (g_z12 g) 0 then raise ZeroDivisionError
  else
    let r := f * cone_radius (g_z1 g) (g_z12 g) (g_r1 g) (g_r12 g) z in
    ret (DuctTry a1 z r (mkVector (r * sin a1) (r * cos a1) z)).

(** [if s.ctype == "acinar": ... else: ...] up to the candidate. *)
Definition gen_try (s : cDseg) (g : SegGeom) : M Attempt :=
  match ctype s with
  | acinar => acinar_try g
  | _ => duct_try g
  end.

(** One pass through the body of [for j in range(10000)]: the candidate
    and the value of the guard. *)
Definition try_once (s : cDseg) (g : SegGeom) : M (Vector * bool) :=
  a <- gen_try s g ;;
  cs <- get_centers ;;
  let ok := accept cs (attempt_point a) (min_dist (ctype s)) in
  log (mkEvent s a ok) ;;;
  ret (attempt_point a, ok).

(** [for j in range(10000)] with [n] passes left, the next one numbered
    [j]; [Some (j, p)] when the loop leaves through [break] with
    [create = True]. *)
Fixpoint retry (n : nat) (j : Z) (s : cDseg) (g : SegGeom)
  : M (option (Z * Vector)) :=
  match n with
  | O => ret None
  | S n' =>
      c <- try_once s g ;;
      if snd c then ret (Some (j, fst c))
      else retry n' (j + 1)%Z s g
  end.

Definition RETRIES : nat := Z.to_nat 10000.
Definition SEEDS : nat := 50.

(** The body of [for i in range(50)]. *)
Definition seed_once (s : cDseg) (g : SegGeom) : M unit :=
  r <- retry RETRIES 0%Z s g ;;
  match r with
  | None => ret tt
  | Some (j, p) =>
      (if (5000 <? j)%Z then print j else ret tt) ;;;
      append_center p ;;;
      scale <- (match ctype s with
                | acinar => uniform 0.90 0.99
                | _ => uniform 0.9 1.1
                end) ;;
      add_cell (mkCell (color (cell_types (ctype s))) p
                       (mkVector scale scale scale)
                       (pressure (cell_types (ctype s)))
                       (stiffness (cell_types (ctype s))))
  end.

(** [n] passes of [for i in range(50)]. *)
Fixpoint seeds (n : nat) (s : cDseg) (g : SegGeom) : M unit :=
  match n with
  | O => ret tt
  | S n' => seed_once s g ;;; seeds n' s g
  end.

Definition create_seg_cells (s : cDseg) : M unit :=
  g <- lift (seg_geom s) ;;
  seeds SEEDS s g.

(** [for s in segs: create_seg_cells(s)] *)
Fixpoint cells_loop (segs : list cDseg) : M unit :=
  match segs with
  | [] => ret tt
  | s :: rest => create_seg_cells s ;;; cells_loop rest
  end.

Definition create_cells : M unit := cells_loop DSEG.

End Sampler.

(** ** Closed forms of the sampling steps *)

(** Number of [random.uniform] calls made by one candidate attempt. *)
Definition draws_per (t : CType) : nat :=
  match t with
  | acinar => 2%nat
  | _ => 3%nat
  end.

(** The state after [k] more draws. *)
Definition advance (k : nat) (st : State) : State :=
  mkState (cell_centers st) (k + rpos st) (cells st) (stdout st) (trace st).

(** The candidate that [gen_try] produces when the generator stands at
    position [k]. *)
Definition candidate_at (rng : nat -> R) (s : cDseg) (g : SegGeom) (k : nat)
  : Res Attempt :=
  fst (gen_try rng s g (mkState [] k [] [] [])).

(** No division by zero in the duct branch. *)
Definition good (s : cDseg) (g : SegGeom) : Prop :=
  ctype s = acinar \/ g_z12 g <> 0.


(** ** Properties of traces and registries *)

(** The accepted candidates of a trace, oldest first, each with the cell
    type of the segment it was accepted for. *)
Definition placed (tr : list Event) : list (Vector * CType) :=
  map (fun e => (attempt_point (ev_try e), ctype (ev_seg e)))
      (filter ev_accepted tr).

(** Every center is at least the minimum distance of its own cell type away
    from every center placed before it. *)
Definition separated (l : list (Vector * CType)) : Prop :=
  forall i j q tq p tp,
    (i < j)%nat ->
    nth_error l i = Some (q, tq) -> nth_error l j = Some (p, tp) ->
    min_dist tp <= length (vsub p q).

(** The registry holds exactly the accepted candidates, in order, and they
    are separated. *)
Definition registry_separated (st : State) : Prop :=
  cell_centers st = map fst (placed (trace st)) /\
  separated (placed (trace st)).

(** The values of [random.random()] lie in the unit interval. *)
Definition unit_draws (rng : nat -> R) : Prop := forall n, 0 <= rng n <= 1.

Definition rejected (e : Event) : Prop := ev_accepted e = false.

(** What one event of the retry loop for segment [s] looks like, given the
    registry [cs] the loop started with. *)
Definition drawn (rng : nat -> R) (s : cDseg) (g : SegGeom)
  (cs : list Vector) (e : Event) : Prop :=
  ev_seg e = s /\
  (exists k, candidate_at rng s g k = Ok (ev_try e)) /\
  ev_accepted e = accept cs (attempt_point (ev_try e)) (min_dist (ctype s)).

(** An event the sampler can log for a segment of [DSEG]: its candidate is
    the one [gen_try] draws at some position of the generator. *)
Definition sampled (rng : nat -> R) (e : Event) : Prop :=
  In (ev_seg e) DSEG /\
  exists g k, seg_geom (ev_seg e) = Ok g /\
              candidate_at rng (ev_seg e) g k = Ok (ev_try e).

(** [st'] extends the trace of [st] by events that all satisfy [P]. *)
Definition traced (P : Event -> Prop) (st st' : State) : Prop :=
  exists evs, trace st' = trace st ++ evs /\ Forall P evs.

(** The polar angle of an acinar candidate lies in [0, 0.8 pi]. *)
Definition acinar_angle_ok (e : Event) : Prop :=
  exists a1 a2 p, ev_try e = AcinarTry a1 a2 p /\ 0 <= a2 <= 0.8 * PI.

(** A duct candidate of segment geometry [g]: azimuth, height and radius are
    the affine images of three unit draws [u1], [u2], [u3] over
    [0, 2 pi], [z1 + C_RADIUS, z2] and [0.95, 1.05], the radius being the
    perturbation factor times the cone radius at the height drawn, and the
    point lies at that height, at that distance from the z axis. *)
Definition duct_try_ok (g : SegGeom) (e : Event) : Prop :=
  exists a1 z r p u1 u2 u3,
    ev_try e = DuctTry a1 z r p /\
    (0 <= u1 <= 1 /\ 0 <= u2 <= 1 /\ 0 <= u3 <= 1) /\
    a1 = 2 * PI * u1 /\ 0 <= a1 <= 2 * PI /\
    z = (g_z1 g + C_RADIUS) + (g_z2 g - (g_z1 g + C_RADIUS)) * u2 /\
    g_z1 g + C_RADIUS <= z <= g_z2 g /\
    r = (0.95 + 0.1 * u3)
        * cone_radius (g_z1 g) (g_z2 g - g_z1 g) (g_r1 g) (g_r2 g - g_r1 g) z /\
    0.95 <= 0.95 + 0.1 * u3 <= 1.05 /\
    p = mkVector (r * sin a1) (r * cos a1) z /\
    sqrt (vx p * vx p + vy p * vy p) = r.

(** The geometry of a segment as lines 168-171 read it from the tables. *)
Definition geom_of_tables (s : cDseg) (g : SegGeom) : Prop :=
  exists p_out p_in,
    PTS_at (idx_out s) = Ok p_out /\ PTS_at (idx_in s) = Ok p_in /\
    g_z1 g = vz (position p_out) /\ g_z2 g = vz (position p_in) /\
    g_r1 g = radius p_out + C_OFFSET /\ g_r2 g = radius p_in + C_OFFSET /\
    C_OFFSET = 1.5 /\ C_RADIUS = 1.

(** The registry of [st'] is the registry of [st] with entries appended. *)
Definition extends (st st' : State) : Prop :=
  exists added, cell_centers st' = cell_centers st ++ added.

(** Two generators return the same values at positions [lo <= n < hi]. *)
Definition agree (rng1 rng2 : nat -> R) (lo hi : nat) : Prop :=
  forall n, (lo <= n < hi)%nat -> rng1 n = rng2 n.

(** ** Further properties of states *)

(** The list [proj st'] is [proj st] with entries appended that all satisfy
    [P]. *)
Definition appended {A : Type} (proj : State -> list A) (P : A -> Prop)
  (st st' : State) : Prop :=
  exists new, proj st' = proj st ++ new /\ Forall P new.

(** One cell per registered center, at that center, in the same order. *)
Definition cells_at_centers (st : State) : Prop :=
  map cell_location (cells st) = cell_centers st.

(** A cell configured for cell type [t]: material colour, pressure and
    stiffness of [cell_types[t]], and one scale factor on all three axes,
    within the range drawn for [t]. *)
Definition cell_of_type (t : CType) (c : Cell) : Prop :=
  cell_material c = color (cell_types t) /\
  cell_pressure c = pressure (cell_types t) /\
  cell_stiffness c = stiffness (cell_types t) /\
  exists k, cell_scale c = mkVector k k k /\
            match t with
            | acinar => 0.90 <= k <= 0.99
            | _ => 0.9 <= k <= 1.1
            end.

(** ** Main program *)

(** What the script leaves in the scene. *)
Record Scene : Type :=
  mkScene { gravity : Vector;            (* [bpy.context.scene.gravity] *)
            duct_objects : list Duct;    (* collection "Duct" *)
            cell_objects : list Cell }.  (* the duplicates of the prototype *)

(** The main program: gravity off, the inner and the outer duct wall, then
    the cells (the prototype cell is created before and removed after
    [create_cells], so it is not part of the result). *)
Definition main (rng : nat -> R) : Res Scene :=
  match create_duct 0.0 with
  | Raise e => Raise e
  | Ok inner =>
      match create_duct (2.0 * C_OFFSET) with
      | Raise e => Raise e
      | Ok outer =>
          match create_cells rng init_state with
          | (Raise e, _) => Raise e
          | (Ok _, st) =>
              Ok (mkScene (mkVector 0 0 0) [inner; outer] (cells st))
          end
      end
  end.

Definition prev_primitives (prev : option Mesh) : list Mesh :=
  match prev with
  | None => []
  | Some m => primitives m
  end.

(** Number of times [combine] was applied to build a mesh. *)
Fixpoint unions (m : Mesh) : nat :=
  match m with
  | Union obj operand => S (unions obj + unions operand)
  | Remesh _ m' => unions m'
  | FlipNormals m' => unions m'
  | _ => 0%nat
  end.

Definition prev_unions (prev : option Mesh) : nat :=
  match prev with
  | None => 0%nat
  | Some m => S (unions m)
  end.

(** The two primitives the body of [for s in DSEG] adds for segment [s]:
    the joint sphere of line 123 (scaled as in line 125), then the cone of
    [create_seg]. *)
Definition segment_primitives (offset : R) (s : cDseg) : list Mesh :=
  match PTS_at (idx_out s), PTS_at (idx_in s) with
  | Ok p_out, Ok p_in =>
      let r2 := duct_r2 offset s p_in in
      [ IcoSphere 4 ((1.0 + EPSILON) * r2) (position p_in)
                  (if outer_acinus offset s then mkVector 1.0 1.0 1.5
                   else mkVector 1 1 1);
        create_seg (position p_out) (radius p_out + offset)
                   (position p_in) r2 ]
  | _, _ => []
  end.

(** ** Candidates as images of the draws they consume *)

(** Event [e] is the candidate that [gen_try] produces for its segment when
    the generator stands at position [k]. *)
Definition drawn_at (rng : nat -> R) (e : Event) (k : nat) : Prop :=
  In (ev_seg e) DSEG /\
  exists g, seg_geom (ev_seg e) = Ok g /\
            candidate_at rng (ev_seg e) g k = Ok (ev_try e).

(** Between [st] and [st'] the generator only moves forward, and every
    event added to the trace is the candidate drawn at a position [k] whose
    draws were consumed in between. *)
Definition reads (rng : nat -> R) (st st' : State) : Prop :=
  (rpos st <= rpos st')%nat /\
  exists evs,
    trace st' = trace st ++ evs /\
    Forall (fun e =>
              exists k, (rpos st <= k)%nat /\
                        (k + draws_per (ctype (ev_seg e)) <= rpos st')%nat /\
                        drawn_at rng e k) evs.

(** The duct candidate of event [e] as the image of the three consecutive
    values [rng k], [rng (S k)], [rng (S (S k))] of the generator: the
    azimuth is the first value scaled onto [0, 2 pi], the height the second
    scaled onto [z1 + C_RADIUS, z2], the radius the cone radius at that
    height times the third scaled onto [0.95, 1.05]; the point lies at that
    height, at that distance from the z axis. *)
Definition duct_try_drawn (rng : nat -> R) (g : SegGeom) (k : nat)
  (e : Event) : Prop :=
  let u1 := rng k in
  let u2 := rng (S k) in
  let u3 := rng (S (S k)) in
  exists a1 z r p,
    ev_try e = DuctTry a1 z r p /\
    a1 = 2 * PI * u1 /\ 0 <= a1 <= 2 * PI /\
    z = (g_z1 g + C_RADIUS) + (g_z2 g - (g_z1 g + C_RADIUS)) * u2 /\
    g_z1 g + C_RADIUS <= z <= g_z2 g /\
    r = (0.95 + 0.1 * u3)
        * cone_radius (g_z1 g) (g_z2 g - g_z1 g) (g_r1 g) (g_r2 g - g_r1 g) z /\
    0.95 <= 0.95 + 0.1 * u3 <= 1.05 /\
    p = mkVector (r * sin a1) (r * cos a1) z /\
    sqrt (vx p * vx p + vy p * vy p) = r.

(** ** The diagnostic output read off the trace *)

(** The index in the retry loop of the attempt that follows event [e],
    [c] being the index of [e] itself: an accepted attempt ends the loop
    through [break], the 10000th rejected attempt ends it by exhaustion,
    and in both cases the next attempt is the first of a new seed. *)
Definition next_index (c : nat) (e : Event) : nat :=
  if ev_accepted e then 0%nat
  else if Nat.eqb (S c) RETRIES then 0%nat else S c.

(** The index at which the attempt after the events [evs] starts, the
    first of them having index [c]. *)
Definition index_after (c : nat) (evs : list Event) : nat :=
  fold_left next_index evs c.

(** What [if j > 5000: print(j)] prints over a sequence of attempts whose
    first has index [c] in its retry loop: the index of each accepted
    attempt that is above 5000, and nothing for a rejected attempt. *)
Fixpoint prints_of (c : nat) (evs : list Event) : list Z :=
  match evs with
  | [] => []
  | e :: rest =>
      (if ev_accepted e && (5000 <? Z.of_nat c)%Z then [Z.of_nat c] else [])
      ++ prints_of (next_index c e) rest
  end.

(** From [st] to [st'] whole seeds were attempted, and the output grew by
    exactly what their attempts print. *)
Definition printed (st st' : State) : Prop :=
  exists evs,
    trace st' = trace st ++ evs /\
    index_after 0 evs = 0%nat /\
    stdout st' = stdout st ++ prints_of 0 evs.
(** * Properties *)

(** ** The acceptance guard *)

Lemma too_close_false_iff (cs : list Vector) (p : Vector) (d : R) :
  too_close cs p d = false <-> forall c, In c cs -> d <= length (vsub p c).
Proof.
  induction cs as [|c cs IH]; simpl.
  - split; [intros _ c []|reflexivity].
  - destruct (Rlt_dec (length (vsub p c)) d) as [Hlt|Hge].
    + split; [discriminate|].
      intros H. specialize (H c (or_introl eq_refl)). lra.
    + rewrite IH. split.
      * intros H c' [<-|Hin]; [lra|auto].
      * intros H c' Hin. apply H. now right.
Qed.

(** C10: on every registry, point and distance the guard
    [len(cell_centers)==0 or not too_close(p, d)] has the value of
    [not too_close(p, d)]; [too_close] is [False] on the empty registry. *)
Theorem accept_bootstrap_redundant :
  (forall p d, too_close [] p d = false) /\
  (forall cs p d, accept cs p d = accept_no_bootstrap cs p d).
Proof.
  split; [reflexivity|].
  intros [|c cs] p d; reflexivity.
Qed.

(** ** Closed forms of one candidate attempt *)

Lemma gen_try_eq rng s g st :
  gen_try rng s g st =
  (candidate_at rng s g (rpos st), advance (draws_per (ctype s)) st).
Proof.
  unfold candidate_at, gen_try, acinar_try, duct_try, bind, uniform, ret, raise.
  destruct (ctype s); simpl; try reflexivity;
    destruct (Req_dec_T (g_z12 g) 0); reflexivity.
Qed.

Lemma good_candidate rng s g k :
  good s g -> exists a, candidate_at rng s g k = Ok a.
Proof.
  unfold good, candidate_at, gen_try, acinar_try, duct_try, bind, uniform,
    ret, raise.
  intros [H|H].
  - rewrite H. simpl. eauto.
  - destruct (ctype s); simpl; eauto;
      destruct (Req_dec_T (g_z12 g) 0); simpl; eauto; contradiction.
Qed.

Lemma try_once_eq rng s g st :
  try_once rng s g st =
  match candidate_at rng s g (rpos st) with
  | Ok a =>
      let ok := accept (cell_centers st) (attempt_point a) (min_dist (ctype s)) in
      (Ok (attempt_point a, ok),
       mkState (cell_centers st) (draws_per (ctype s) + rpos st) (cells st)
               (stdout st) (trace st ++ [mkEvent s a ok]))
  | Raise e => (Raise e, advance (draws_per (ctype s)) st)
  end.
Proof.
  unfold try_once, bind. rewrite gen_try_eq.
  destruct (candidate_at rng s g (rpos st)); reflexivity.
Qed.

(** ** The duct tables *)

Lemma DSEG_cases (P : cDseg -> Prop) :
  P (mkDseg 0 1 striated) -> P (mkDseg 1 2 striated) ->
  P (mkDseg 2 3 intercalated) -> P (mkDseg 3 4 intercalated) ->
  P (mkDseg 4 5 acinar) ->
  forall s, In s DSEG -> P s.
Proof.
  intros H0 H1 H2 H3 H4 s Hs. unfold DSEG in Hs. simpl in Hs.
  repeat (destruct Hs as [<-|Hs]; [assumption|]). destruct Hs.
Qed.

(** C3, as stated, fails: the third segment joins two endpoints of equal
    radius 1.5, so its inner radius is not strictly less than its outer one. *)
Lemma DSEG_radii_not_strict :
  ~ (forall s p_out p_in,
        In s DSEG ->
        PTS_at (idx_out s) = Ok p_out -> PTS_at (idx_in s) = Ok p_in ->
        radius p_in < radius p_out).
Proof.
  intros H.
  specialize (H (mkDseg 2 3 intercalated)
                (mkPts (mkVector 0.0 0.0 20.0) 1.5)
                (mkPts (mkVector 0.0 0.0 40.0) 1.5)).
  simpl in H.
  assert (Hlt : 1.5 < 1.5) by (apply H; auto).
  lra.
Qed.

(** C3 (amended): every [idx_out] and [idx_in] of [DSEG] is an index into
    the six-entry table [PTS], and along each segment the endpoint radius
    does not increase; it strictly decreases on every segment except the
    third one ([idx_out = 2], [idx_in = 3]), whose two radii are both 1.5. *)
Theorem DSEG_tables_consistent (s : cDseg) (Hs : In s DSEG) :
  (List.length DSEG = 5%nat /\ List.length PTS = 6%nat) /\
  (idx_out s < List.length PTS)%nat /\ (idx_in s < List.length PTS)%nat /\
  exists p_out p_in,
    PTS_at (idx_out s) = Ok p_out /\ PTS_at (idx_in s) = Ok p_in /\
    radius p_in <= radius p_out /\
    (s <> mkDseg 2 3 intercalated -> radius p_in < radius p_out) /\
    (s = mkDseg 2 3 intercalated -> radius p_in = 1.5 /\ radius p_out = 1.5).
Proof.
  revert s Hs.
  apply DSEG_cases; (split; [split; reflexivity|]); simpl;
    (split; [lia|]); (split; [lia|]);
    do 2 eexists; (split; [reflexivity|]); (split; [reflexivity|]); simpl;
    (split; [lra|]); split; intros H; try lra; try discriminate H;
    try (exfalso; apply H; reflexivity); try (split; reflexivity).
Qed.

Lemma DSEG_tables_consistent_witness :
  In (mkDseg 1 2 striated) DSEG /\
  exists p_out p_in,
    PTS_at 1 = Ok p_out /\ PTS_at 2 = Ok p_in /\ radius p_in < radius p_out.
Proof.
  assert (Hin : In (mkDseg 1 2 striated) DSEG) by (simpl; auto).
  split; [exact Hin|].
  destruct (DSEG_tables_consistent _ Hin)
    as (_ & _ & _ & po & pi & Ho & Hi & _ & Hlt & _).
  exists po, pi. repeat split; try assumption.
  apply Hlt. discriminate.
Defined.

(** ** The cone radius followed by duct seeds *)

Lemma cone_radius_diff z1 z12 r1 r12 z z' :
  cone_radius z1 z12 r1 r12 z' - cone_radius z1 z12 r1 r12 z
  = (z' - z) * (r12 * / z12).
Proof. unfold cone_radius, Rdiv. ring. Qed.

Lemma cone_radius_ends z1 z2 r1 r2 :
  z1 < z2 ->
  cone_radius z1 (z2 - z1) r1 (r2 - r1) z1 = r1 /\
  cone_radius z1 (z2 - z1) r1 (r2 - r1) z2 = r2.
Proof.
  intros Hz. unfold cone_radius. split; field; lra.
Qed.

Lemma cone_radius_incr z1 z12 r1 r12 z z' :
  0 < z12 -> 0 <= r12 -> z <= z' ->
  cone_radius z1 z12 r1 r12 z <= cone_radius z1 z12 r1 r12 z'.
Proof.
  intros Hz Hr Hzz.
  pose proof (cone_radius_diff z1 z12 r1 r12 z z') as Hd.
  assert (0 < / z12) by now apply Rinv_0_lt_compat.
  assert (0 <= r12 * / z12) by (apply Rmult_le_pos; lra).
  assert (0 <= (z' - z) * (r12 * / z12)) by (apply Rmult_le_pos; lra).
  lra.
Qed.

Lemma cone_radius_decr z1 z12 r1 r12 z z' :
  0 < z12 -> r12 <= 0 -> z <= z' ->
  cone_radius z1 z12 r1 r12 z' <= cone_radius z1 z12 r1 r12 z.
Proof.
  intros Hz Hr Hzz.
  pose proof (cone_radius_diff z1 z12 r1 r12 z z') as Hd.
  assert (0 < / z12) by now apply Rinv_0_lt_compat.
  assert (0 <= (- r12) * / z12) by (apply Rmult_le_pos; lra).
  assert (0 <= (z' - z) * ((- r12) * / z12)) by (apply Rmult_le_pos; lra).
  lra.
Qed.

Lemma seg_geom_DSEG s :
  In s DSEG ->
  exists g, seg_geom s = Ok g /\ g_z1 g + C_RADIUS < g_z2 g /\
            g_r2 g <= g_r1 g /\ 1 < g_r2 g /\ good s g.
Proof.
  revert s. apply DSEG_cases; eexists; (split; [reflexivity|]);
    unfold good, g_z12; simpl; unfold C_OFFSET, C_RADIUS;
    (split; [lra|]); (split; [lra|]); (split; [lra|]);
    first [now left | right; lra].
Qed.

(** C6: on every non-acinar segment of [DSEG] the interpolation
    [z |-> ((z - z1)/z12)*r12 + r1] takes the value [r1] at [z1] and [r2] at
    [z2], is monotone in [z] (non-increasing, as [r2 <= r1] on each such
    segment) and stays between [r2] and [r1] for [z] between [z1] and [z2]. *)
Theorem cone_radius_monotone (s : cDseg) (g : SegGeom)
  (Hs : In s DSEG) (Ht : ctype s <> acinar) (Hg : seg_geom s = Ok g) :
  let f := cone_radius (g_z1 g) (g_z12 g) (g_r1 g) (g_r12 g) in
  f (g_z1 g) = g_r1 g /\ f (g_z2 g) = g_r2 g /\
  g_r2 g <= g_r1 g /\
  (forall z z', z <= z' -> f z' <= f z) /\
  (forall z, g_z1 g <= z <= g_z2 g -> g_r2 g <= f z <= g_r1 g).
Proof.
  destruct (seg_geom_DSEG s Hs) as (g' & Hg' & Hz & Hr & _ & _).
  rewrite Hg in Hg'. injection Hg' as <-.
  assert (Hz12 : g_z1 g < g_z2 g) by (unfold C_RADIUS in Hz; lra).
  destruct (cone_radius_ends (g_z1 g) (g_z2 g) (g_r1 g) (g_r2 g) Hz12)
    as [E1 E2].
  fold (g_z12 g) in E1, E2. fold (g_r12 g) in E1, E2.
  assert (Hmono : forall z z', z <= z' ->
            cone_radius (g_z1 g) (g_z12 g) (g_r1 g) (g_r12 g) z'
            <= cone_radius (g_z1 g) (g_z12 g) (g_r1 g) (g_r12 g) z).
  { intros z z' Hzz. apply cone_radius_decr; unfold g_z12, g_r12; lra. }
  intros f. subst f. repeat split; try assumption.
  - pose proof (Hmono z (g_z2 g) (proj2 H)). lra.
  - pose proof (Hmono (g_z1 g) z (proj1 H)). lra.
Qed.

Lemma cone_radius_monotone_witness :
  let g := mkGeom (mkVector 0.0 0.0 10.0) 0.0 10.0 (4.0 + C_OFFSET)
                  (3.7 + C_OFFSET) in
  seg_geom (mkDseg 0 1 striated) = Ok g /\
  cone_radius (g_z1 g) (g_z12 g) (g_r1 g) (g_r12 g) 10.0
  <= cone_radius (g_z1 g) (g_z12 g) (g_r1 g) (g_r12 g) 5.0.
Proof.
  intros g.
  assert (Hin : In (mkDseg 0 1 striated) DSEG) by (simpl; auto).
  assert (Ht : ctype (mkDseg 0 1 striated) <> acinar) by discriminate.
  assert (Hg : seg_geom (mkDseg 0 1 striated) = Ok g) by reflexivity.
  split; [exact Hg|].
  destruct (cone_radius_monotone _ g Hin Ht Hg) as (_ & _ & _ & Hm & _).
  apply Hm. lra.
Defined.

(** ** The duct-wall builder *)

Lemma Reqb_true x y : x = y -> Reqb x y = true.
Proof.
  intros H. unfold Reqb.
  destruct (Req_dec_T x y); [reflexivity|contradiction].
Qed.

Lemma Reqb_false x y : x <> y -> Reqb x y = false.
Proof.
  intros H. unfold Reqb.
  destruct (Req_dec_T x y); [contradiction|reflexivity].
Qed.

Ltac run_create_duct :=
  unfold create_duct, DSEG, duct_loop, duct_step, duct_r2, outer_acinus;
  repeat match goal with
         | H : ?x = 0 |- context [Reqb ?x 0] => rewrite (Reqb_true _ _ H)
         | H : ?x <> 0 |- context [Reqb ?x 0] => rewrite (Reqb_false _ _ H)
         end;
  cbn [negb andb PTS_at nth_error PTS idx_out idx_in ctype CType_eqb].

Tactic Notation "nth_DSEG" ident(k) hyp(H) :=
  destruct k as [|[|[|[|[|k]]]]]; simpl in H;
  [ injection H as <- .. | destruct k; discriminate H ].

(** C8: [create_duct] succeeds for every offset, and for the [k]-th segment
    the joint sphere (radius [(1 + EPSILON) * r2]) and the cone (second
    radius [r2]) are built with [r2] the inner endpoint's table radius plus
    the offset, unless the offset is nonzero and the segment is acinar, when
    [r2] is [A_RADIUS = 8.0] and the sphere is scaled by (1, 1, 1.5); with
    offset 0 the table radius itself is used. *)
Theorem create_duct_inner_radius (offset : R) :
  exists d, create_duct offset = Ok d /\
  forall k s, nth_error DSEG k = Some s ->
    exists p_out p_in r2 scale,
      PTS_at (idx_out s) = Ok p_out /\ PTS_at (idx_in s) = Ok p_in /\
      nth_error (primitives (duct_mesh d)) (2 * k)
        = Some (IcoSphere 4 ((1.0 + EPSILON) * r2) (position p_in) scale) /\
      nth_error (primitives (duct_mesh d)) (2 * k + 1)
        = Some (create_seg (position p_out) (radius p_out + offset)
                           (position p_in) r2) /\
      (offset <> 0 -> ctype s = acinar ->
         r2 = A_RADIUS /\ A_RADIUS = 8 /\ scale = mkVector 1.0 1.0 1.5) /\
      (offset = 0 \/ ctype s <> acinar ->
         r2 = radius p_in + offset /\ scale = mkVector 1 1 1) /\
      (offset = 0 -> r2 = radius p_in).
Proof.
  destruct (Req_dec_T offset 0) as [H0|H0].
  - eexists. split; [run_create_duct; reflexivity|].
    intros k s Hk. nth_DSEG k Hk;
      do 4 eexists; (split; [reflexivity|]); (split; [reflexivity|]);
      (split; [reflexivity|]); (split; [reflexivity|]);
      (split; [intros ?; contradiction|]);
      (split; [intros _; split; reflexivity|]);
      intros _; simpl; lra.
  - eexists. split; [run_create_duct; reflexivity|].
    intros k s Hk. nth_DSEG k Hk;
      do 4 eexists; (split; [reflexivity|]); (split; [reflexivity|]);
      (split; [reflexivity|]); (split; [reflexivity|]);
      (split; [intros _ Hc; first [discriminate Hc
                                 | repeat split; unfold A_RADIUS; lra]|]);
      (split; [intros [Hc|Hc]; first [contradiction
                                    | split; reflexivity
                                    | exfalso; apply Hc; reflexivity]|]);
      intros ?; contradiction.
Qed.

(** The outer wall is built by [create_duct(2.0 * C_OFFSET)]: its acinar
    joint uses radius 8.0, larger than the offset table radius 3.05. *)
Lemma create_duct_inner_radius_witness :
  exists d, create_duct (2.0 * C_OFFSET) = Ok d /\
    nth_error (primitives (duct_mesh d)) 8
    = Some (IcoSphere 4 ((1.0 + EPSILON) * 8) (mkVector 0.0 0.0 52.0)
                      (mkVector 1.0 1.0 1.5)) /\
    0.05 + 2.0 * C_OFFSET < 8.
Proof.
  destruct (create_duct_inner_radius (2.0 * C_OFFSET)) as (d & Hd & H).
  exists d. split; [exact Hd|].
  destruct (H 4%nat (mkDseg 4 5 acinar) eq_refl)
    as (po & pi & r2 & sc & _ & Hpi & Hs & _ & Hout & _ & _).
  injection Hpi as <-.
  destruct Hout as (-> & _ & ->);
    [unfold C_OFFSET, C_RADIUS; lra | reflexivity |].
  unfold C_OFFSET, C_RADIUS.
  split; [|lra]. change 8%nat with (2 * 4)%nat. rewrite Hs.
  unfold A_RADIUS. simpl. do 2 f_equal. lra.
Defined.

(** ** The retry loop *)

Section RetryFacts.

Variable rng : nat -> R.
Variable s : cDseg.
Variable g : SegGeom.

Let d := draws_per (ctype s).
Let md := min_dist (ctype s).

Lemma retry_S n j st :
  retry rng (S n) j s g st =
  match candidate_at rng s g (rpos st) with
  | Ok a =>
      let ok := accept (cell_centers st) (attempt_point a) md in
      let st1 := mkState (cell_centers st) (d + rpos st) (cells st)
                         (stdout st) (trace st ++ [mkEvent s a ok]) in
      if ok then (Ok (Some (j, attempt_point a)), st1)
      else retry rng n (j + 1)%Z s g st1
  | Raise e => (Raise e, advance d st)
  end.
Proof.
  simpl. unfold bind. rewrite try_once_eq.
  destruct (candidate_at rng s g (rpos st)) as [a|e]; [|reflexivity].
  cbv zeta. subst md.
  destruct (accept (cell_centers st) (attempt_point a) (min_dist (ctype s)));
    reflexivity.
Qed.

Lemma retry_spec n :
  forall j st,
    let out := retry rng n j s g st in
    cell_centers (snd out) = cell_centers st /\
    cells (snd out) = cells st /\
    stdout (snd out) = stdout st /\
    exists evs,
      trace (snd out) = trace st ++ evs /\
      Forall (drawn rng s g (cell_centers st)) evs /\
      match fst out with
      | Ok (Some (j', p)) =>
          exists evs0 a,
            evs = evs0 ++ [mkEvent s a true] /\ Forall rejected evs0 /\
            p = attempt_point a /\
            accept (cell_centers st) p md = true /\
            (j <= j' < j + Z.of_nat n)%Z
      | Ok None => Forall rejected evs
      | Raise _ => Forall rejected evs /\ ~ good s g
      end.
Proof.
  induction n as [|n IH]; intros j st.
  - simpl. repeat split. exists []. rewrite app_nil_r. repeat constructor.
  - cbv zeta. rewrite retry_S.
    destruct (candidate_at rng s g (rpos st)) as [a|e] eqn:Hc.
    + cbv zeta.
      destruct (accept (cell_centers st) (attempt_point a) md) eqn:Hacc.
      * simpl. repeat split.
        exists [mkEvent s a true]. repeat split.
        { constructor; [|constructor]. repeat split; simpl; eauto. }
        exists [], a. repeat split; auto; lia.
      * match goal with |- context [retry rng n ?j' s g ?st1] =>
          specialize (IH j' st1); cbv zeta in IH;
          destruct (retry rng n j' s g st1) as [r st'] end.
        simpl in IH |- *.
        destruct IH as (Hcc & Hce & Hso & evs & Htr & Hdr & Hres).
        repeat split; try assumption.
        exists (mkEvent s a false :: evs). split; [|split].
        { rewrite Htr, <- app_assoc. reflexivity. }
        { constructor; [|assumption]. repeat split; simpl; eauto. }
        destruct r as [[[j' p]|]|e].
        -- destruct Hres as (evs0 & a' & -> & Hrej & -> & Hok & Hj).
           exists (mkEvent s a false :: evs0), a'.
           repeat split; auto; try lia. now constructor.
        -- now constructor.
        -- destruct Hres as [Hrej Hng]. split; [now constructor|assumption].
    + simpl. repeat split. exists []. rewrite app_nil_r.
      repeat split; try constructor.
      intros Hg. destruct (good_candidate rng s g (rpos st) Hg) as [a Ha].
      rewrite Ha in Hc. discriminate.
Qed.

(** When every attempt is rejected the loop runs to its end and only the
    generator position and the trace change. *)
Lemma retry_exhausted n :
  forall j st,
    (forall i, (i < n)%nat ->
       exists a, candidate_at rng s g (rpos st + d * i) = Ok a /\
                 accept (cell_centers st) (attempt_point a) md = false) ->
    exists evs,
      retry rng n j s g st =
      (Ok None, mkState (cell_centers st) (d * n + rpos st) (cells st)
                        (stdout st) (trace st ++ evs)) /\
      Forall rejected evs /\ List.length evs = n.
Proof.
  induction n as [|n IH]; intros j st Hall.
  - exists []. rewrite app_nil_r, Nat.mul_0_r. destruct st. repeat split.
    constructor.
  - rewrite retry_S.
    destruct (Hall 0%nat ltac:(lia)) as (a & Ha & Hacc).
    rewrite Nat.mul_0_r, Nat.add_0_r in Ha. rewrite Ha. cbv zeta.
    rewrite Hacc.
    match goal with |- context [retry rng n ?j' s g ?st1] =>
      destruct (IH j' st1) as (evs & Heq & Hrej & Hlen) end.
    { intros i Hi. simpl.
      destruct (Hall (S i) ltac:(lia)) as (a' & Ha' & Hacc').
      exists a'. split; [|assumption].
      rewrite <- Ha'. f_equal. lia. }
    exists (mkEvent s a false :: evs). rewrite Heq. simpl.
    repeat split.
    + f_equal. f_equal; [lia|]. now rewrite <- app_assoc.
    + now constructor.
    + now rewrite Hlen.
Qed.

End RetryFacts.

(** ** One seed, and the loops around it *)

Lemma seed_once_eq rng s g st :
  seed_once rng s g st =
  match retry rng RETRIES 0%Z s g st with
  | (Ok None, st') => (Ok tt, st')
  | (Ok (Some (j, p)), st') =>
      let scale :=
        match ctype s with
        | acinar => 0.90 + (0.99 - 0.90) * rng (rpos st')
        | _ => 0.9 + (1.1 - 0.9) * rng (rpos st')
        end in
      (Ok tt,
       mkState (cell_centers st' ++ [p]) (S (rpos st'))
               (cells st' ++
                [mkCell (color (cell_types (ctype s))) p
                        (mkVector scale scale scale)
                        (pressure (cell_types (ctype s)))
                        (stiffness (cell_types (ctype s)))])
               (if (5000 <? j)%Z then stdout st' ++ [j] else stdout st')
               (trace st'))
  | (Raise e, st') => (Raise e, st')
  end.
Proof.
  unfold seed_once, bind.
  destruct (retry rng RETRIES 0%Z s g st) as [[[[j p]|]|e] st'];
    try reflexivity.
  destruct (5000 <? j)%Z; destruct (ctype s); reflexivity.
Qed.

Lemma seeds_S rng n s g st :
  seeds rng (S n) s g st =
  match seed_once rng s g st with
  | (Ok _, st') => seeds rng n s g st'
  | (Raise e, st') => (Raise e, st')
  end.
Proof. reflexivity. Qed.

Lemma create_seg_cells_eq rng s st :
  create_seg_cells rng s st =
  match seg_geom s with
  | Ok g => seeds rng SEEDS s g st
  | Raise e => (Raise e, st)
  end.
Proof.
  unfold create_seg_cells, bind, lift. destruct (seg_geom s); reflexivity.
Qed.

Lemma cells_loop_cons rng s rest st :
  cells_loop rng (s :: rest) st =
  match create_seg_cells rng s st with
  | (Ok _, st') => cells_loop rng rest st'
  | (Raise e, st') => (Raise e, st')
  end.
Proof. reflexivity. Qed.

(** Relations between the state before and after that hold for one seed
    carry over to the loops. *)
Section Lift.

Variable rng : nat -> R.
Variable Rel : State -> State -> Prop.
Hypothesis Rel_refl : forall st, Rel st st.
Hypothesis Rel_trans : forall a b c, Rel a b -> Rel b c -> Rel a c.

Lemma seeds_lift s g :
  (forall st, Rel st (snd (seed_once rng s g st))) ->
  forall n st, Rel st (snd (seeds rng n s g st)).
Proof.
  intros H n. induction n as [|n IH]; intros st; [apply Rel_refl|].
  rewrite seeds_S. specialize (H st).
  destruct (seed_once rng s g st) as [[u|e] st']; simpl in H |- *.
  - eapply Rel_trans; [exact H|apply IH].
  - exact H.
Qed.

Lemma create_seg_cells_lift s :
  (forall g, seg_geom s = Ok g ->
             forall st, Rel st (snd (seed_once rng s g st))) ->
  forall st, Rel st (snd (create_seg_cells rng s st)).
Proof.
  intros H st. rewrite create_seg_cells_eq.
  destruct (seg_geom s) as [g|e]; [|apply Rel_refl].
  apply seeds_lift. now apply H.
Qed.

Lemma cells_loop_lift segs :
  (forall s g, In s segs -> seg_geom s = Ok g ->
               forall st, Rel st (snd (seed_once rng s g st))) ->
  forall st, Rel st (snd (cells_loop rng segs st)).
Proof.
  induction segs as [|s rest IH]; intros H st; [apply Rel_refl|].
  rewrite cells_loop_cons.
  pose proof (create_seg_cells_lift s
                (fun g Hg => H s g (or_introl eq_refl) Hg) st) as Hs.
  destruct (create_seg_cells rng s st) as [[u|e] st']; simpl in Hs |- *.
  - eapply Rel_trans; [exact Hs|]. apply IH.
    intros s' g' Hin. apply H. now right.
  - exact Hs.
Qed.

End Lift.

(** No exception is raised on segments whose geometry is well defined. *)
Lemma seed_once_ok rng s g st :
  good s g -> fst (seed_once rng s g st) = Ok tt.
Proof.
  intros Hg. rewrite seed_once_eq.
  pose proof (retry_spec rng s g RETRIES 0%Z st) as H. cbv zeta in H.
  destruct (retry rng RETRIES 0%Z s g st) as [[[[j p]|]|e] st'];
    try reflexivity.
  simpl in H. destruct H as (_ & _ & _ & evs & _ & _ & _ & Hng).
  contradiction.
Qed.

Lemma seeds_ok rng s g :
  good s g -> forall n st, fst (seeds rng n s g st) = Ok tt.
Proof.
  intros Hg n. induction n as [|n IH]; intros st; [reflexivity|].
  rewrite seeds_S. pose proof (seed_once_ok rng s g st Hg) as H.
  destruct (seed_once rng s g st) as [[[]|e] st']; simpl in H.
  - apply IH.
  - discriminate.
Qed.

Lemma create_seg_cells_ok rng s st :
  In s DSEG -> fst (create_seg_cells rng s st) = Ok tt.
Proof.
  intros Hs. destruct (seg_geom_DSEG s Hs) as (g & Hg & _ & _ & _ & Hgood).
  rewrite create_seg_cells_eq, Hg. now apply seeds_ok.
Qed.

Lemma cells_loop_ok rng segs :
  incl segs DSEG -> forall st, fst (cells_loop rng segs st) = Ok tt.
Proof.
  induction segs as [|s rest IH]; intros Hin st; [reflexivity|].
  rewrite cells_loop_cons.
  pose proof (create_seg_cells_ok rng s st (Hin s (or_introl eq_refl))) as H.
  destruct (create_seg_cells rng s st) as [[[]|e] st']; simpl in H.
  - apply IH. intros x Hx. apply Hin. now right.
  - discriminate.
Qed.

(** ** The registry only grows *)

Lemma seed_once_registry rng s g st :
  cell_centers (snd (seed_once rng s g st)) = cell_centers st \/
  exists p, cell_centers (snd (seed_once rng s g st)) = cell_centers st ++ [p].
Proof.
  rewrite seed_once_eq.
  pose proof (retry_spec rng s g RETRIES 0%Z st) as H. cbv zeta in H.
  destruct (retry rng RETRIES 0%Z s g st) as [[[[j p]|]|e] st'];
    simpl in H |- *; destruct H as (Hcc & _); rewrite Hcc; eauto.
Qed.

Lemma extends_refl st : extends st st.
Proof. exists []. now rewrite app_nil_r. Qed.

Lemma extends_trans a b c : extends a b -> extends b c -> extends a c.
Proof.
  intros [x Hx] [y Hy]. exists (x ++ y). now rewrite Hy, Hx, app_assoc.
Qed.

Lemma seed_once_extends rng s g st : extends st (snd (seed_once rng s g st)).
Proof.
  destruct (seed_once_registry rng s g st) as [H|[p H]].
  - exists []. now rewrite app_nil_r.
  - now exists [p].
Qed.

(** C9: each pass of the seed loop, each call of [create_seg_cells] and the
    whole of [create_cells] leave the previous contents of [cell_centers]
    as an unchanged prefix of the new contents. *)
Theorem registry_append_only (rng : nat -> R) (st : State) :
  (forall s g, exists added,
      cell_centers (snd (seed_once rng s g st)) = cell_centers st ++ added) /\
  (forall s, exists added,
      cell_centers (snd (create_seg_cells rng s st))
      = cell_centers st ++ added) /\
  (exists added,
      cell_centers (snd (create_cells rng st)) = cell_centers st ++ added).
Proof.
  split; [|split].
  - intros s g. apply seed_once_extends.
  - intros s.
    apply (create_seg_cells_lift rng extends extends_refl extends_trans).
    intros g _ st'. apply seed_once_extends.
  - apply (cells_loop_lift rng extends extends_refl extends_trans).
    intros s g _ _ st'. apply seed_once_extends.
Qed.

(** ** Separation of the accepted centers *)

Lemma placed_app l1 l2 : placed (l1 ++ l2) = placed l1 ++ placed l2.
Proof. unfold placed. now rewrite filter_app, map_app. Qed.

Lemma placed_rejected evs : Forall rejected evs -> placed evs = [].
Proof.
  induction 1 as [|e evs He _ IH]; [reflexivity|].
  unfold placed in *. simpl. unfold rejected in He. now rewrite He.
Qed.

Lemma accept_true_far cs p dist :
  accept cs p dist = true -> forall c, In c cs -> dist <= length (vsub p c).
Proof.
  unfold accept. intros H.
  apply too_close_false_iff.
  destruct cs as [|c cs]; [reflexivity|].
  simpl in H. now apply negb_true_iff in H.
Qed.

Lemma separated_snoc l p t :
  separated l ->
  (forall c, In c (map fst l) -> min_dist t <= length (vsub p c)) ->
  separated (l ++ [(p, t)]).
Proof.
  intros Hsep Hfar i j q tq p' tp Hij Hi Hj.
  assert (Hjlen : (j < List.length (l ++ [(p, t)]))%nat)
    by (apply nth_error_Some; congruence).
  rewrite length_app in Hjlen. simpl in Hjlen.
  assert (Hi' : nth_error l i = Some (q, tq))
    by (rewrite nth_error_app1 in Hi by lia; exact Hi).
  destruct (Nat.eq_dec j (List.length l)) as [->|Hne].
  - rewrite nth_error_app2, Nat.sub_diag in Hj by lia.
    injection Hj as <- <-.
    apply Hfar. apply in_map_iff. exists (q, tq). split; [reflexivity|].
    eapply nth_error_In; eassumption.
  - rewrite nth_error_app1 in Hj by lia.
    exact (Hsep i j q tq p' tp Hij Hi' Hj).
Qed.

Lemma seed_once_separated rng s g st :
  registry_separated st -> registry_separated (snd (seed_once rng s g st)).
Proof.
  intros [Hreg Hsep]. rewrite seed_once_eq.
  pose proof (retry_spec rng s g RETRIES 0%Z st) as H. cbv zeta in H.
  destruct (retry rng RETRIES 0%Z s g st) as [[[[j p]|]|e] st'];
    simpl in H |- *;
    destruct H as (Hcc & _ & _ & evs & Htr & _ & Hres);
    unfold registry_separated; simpl; rewrite Htr, placed_app.
  - destruct Hres as (evs0 & a & -> & Hrej & -> & Hacc & _).
    rewrite placed_app, (placed_rejected _ Hrej). simpl.
    rewrite map_app, Hcc, Hreg. split; [reflexivity|].
    apply separated_snoc; [assumption|].
    rewrite <- Hreg. now apply accept_true_far.
  - rewrite (placed_rejected _ Hres), app_nil_r, Hcc. now split.
  - rewrite (placed_rejected _ (proj1 Hres)), app_nil_r, Hcc. now split.
Qed.

Lemma separated_floor l :
  separated l ->
  forall i j q p, (i < j)%nat ->
    nth_error (map fst l) i = Some q -> nth_error (map fst l) j = Some p ->
    2.5 * C_RADIUS <= length (vsub p q).
Proof.
  intros Hsep i j q p Hij Hi Hj.
  rewrite nth_error_map in Hi, Hj.
  destruct (nth_error l i) as [[q' tq]|] eqn:Ei; [|discriminate].
  destruct (nth_error l j) as [[p' tp]|] eqn:Ej; [|discriminate].
  simpl in Hi, Hj. injection Hi as <-. injection Hj as <-.
  pose proof (Hsep i j q' tq p' tp Hij Ei Ej) as H.
  unfold C_RADIUS in *. destruct tp; simpl in H; unfold C_RADIUS in H; lra.
Qed.

(** C1: the registry is separated at the start of a run, stays so across
    every pass of the seed loop and every call of [create_seg_cells], and
    is so when [create_cells] returns: each center lies at least
    [2.8 * C_RADIUS] (accepted for the acinar segment) or [2.5 * C_RADIUS]
    (accepted for an intercalated or striated segment) away from every
    center placed before it. *)
Theorem accepted_centers_separated :
  (min_dist acinar = 2.8 /\ min_dist intercalated = 2.5 /\
   min_dist striated = 2.5) /\
  registry_separated init_state /\
  (forall rng s g st,
      registry_separated st ->
      registry_separated (snd (seed_once rng s g st))) /\
  (forall rng s st,
      registry_separated st ->
      registry_separated (snd (create_seg_cells rng s st))) /\
  (forall rng,
      let st := snd (create_cells rng init_state) in
      registry_separated st /\
      forall i j q p, (i < j)%nat ->
        nth_error (cell_centers st) i = Some q ->
        nth_error (cell_centers st) j = Some p ->
        2.5 <= length (vsub p q)).
Proof.
  assert (Hinit : registry_separated init_state).
  { split; [reflexivity|]. intros i j q tq p tp _ Hi. destruct i; discriminate. }
  assert (Hlift : forall rng segs st,
             registry_separated st ->
             registry_separated (snd (cells_loop rng segs st))).
  { intros rng segs st.
    apply (cells_loop_lift rng
             (fun a b => registry_separated a -> registry_separated b));
      [auto | auto |].
    intros s g _ _ st'. apply seed_once_separated. }
  split; [|split; [|split; [|split]]].
  - unfold min_dist, C_RADIUS. repeat split; lra.
  - exact Hinit.
  - intros rng s g st. apply seed_once_separated.
  - intros rng s st.
    apply (create_seg_cells_lift rng
             (fun a b => registry_separated a -> registry_separated b));
      [auto | auto |].
    intros g _ st'. apply seed_once_separated.
  - intros rng st.
    assert (Hfin : registry_separated st) by (apply Hlift; exact Hinit).
    split; [exact Hfin|].
    destruct Hfin as [Hreg Hsep]. rewrite Hreg.
    intros i j q p Hij Hi Hj.
    pose proof (separated_floor _ Hsep i j q p Hij Hi Hj) as H.
    unfold C_RADIUS in H. lra.
Qed.

Lemma accepted_centers_separated_witness :
  registry_separated
    (snd (seed_once (fun _ => 0) (mkDseg 0 1 striated)
                    (mkGeom (mkVector 0.0 0.0 10.0) 0.0 10.0
                            (4.0 + C_OFFSET) (3.7 + C_OFFSET))
                    init_state)).
Proof.
  destruct accepted_centers_separated as (_ & Hinit & Hstep & _).
  apply Hstep. exact Hinit.
Defined.

(** ** Exhausted retries *)

Lemma seeds_count rng s g n :
  forall st,
    (List.length (cell_centers (snd (seeds rng n s g st)))
     <= List.length (cell_centers st) + n)%nat.
Proof.
  induction n as [|n IH]; intros st; [simpl; lia|].
  rewrite seeds_S.
  pose proof (seed_once_registry rng s g st) as H.
  destruct (seed_once rng s g st) as [[u|e] st']; simpl in H |- *.
  - specialize (IH st').
    destruct H as [H|[p H]]; rewrite H in IH;
      [|rewrite length_app in IH; simpl in IH]; lia.
  - destruct H as [H|[p H]]; rewrite H;
      [|rewrite length_app; simpl]; lia.
Qed.

(** C2: on a segment of [DSEG], when each of the 10,000 candidates of a
    seed index fails the guard, that pass of the seed loop returns normally
    with the registry, the scene and the output unchanged, and the loop goes
    on with the remaining indices; a call of [create_seg_cells] raises
    nothing and appends at most 50 centers. *)
Theorem seed_skipped_silently (rng : nat -> R) (s : cDseg) (g : SegGeom)
  (st : State)
  (Hs : In s DSEG) (Hg : seg_geom s = Ok g)
  (Hfail : forall j, (j < RETRIES)%nat ->
     exists a,
       candidate_at rng s g (rpos st + draws_per (ctype s) * j) = Ok a /\
       accept (cell_centers st) (attempt_point a) (min_dist (ctype s))
       = false) :
  (Z.of_nat RETRIES = 10000%Z /\ SEEDS = 50%nat) /\
  (exists st',
      seed_once rng s g st = (Ok tt, st') /\
      cell_centers st' = cell_centers st /\
      cells st' = cells st /\ stdout st' = stdout st /\
      forall n, seeds rng (S n) s g st = seeds rng n s g st') /\
  (forall st0,
      fst (create_seg_cells rng s st0) = Ok tt /\
      (List.length (cell_centers (snd (create_seg_cells rng s st0)))
       <= List.length (cell_centers st0) + 50)%nat).
Proof.
  split; [|split].
  - split; [unfold RETRIES; lia|reflexivity].
  - destruct (retry_exhausted rng s g RETRIES 0%Z st Hfail)
      as (evs & Heq & _ & _).
    eexists. split; [rewrite seed_once_eq, Heq; reflexivity|].
    do 3 (split; [reflexivity|]).
    intros n. rewrite seeds_S, seed_once_eq, Heq. reflexivity.
  - intros st0. split; [now apply create_seg_cells_ok|].
    rewrite create_seg_cells_eq, Hg. apply seeds_count.
Qed.

Lemma stuck_candidate k :
  candidate_at (fun _ => 0) (mkDseg 4 5 acinar)
               (mkGeom (mkVector 0.0 0.0 52.0) 45.0 52.0
                       (0.7 + C_OFFSET) (0.05 + C_OFFSET)) k
  = Ok (AcinarTry 0 0 (mkVector 0 0 57.25)).
Proof.
  unfold candidate_at, gen_try, acinar_try, bind, uniform, ret.
  cbn [ctype fst snd rpos g_in vadd vx vy vz].
  replace (0.0 + (2.0 * PI - 0.0) * 0) with 0 by lra.
  replace (0.0 + (0.8 * PI - 0.0) * 0) with 0 by lra.
  rewrite sin_0, cos_0. unfold C_RADIUS, vadd. simpl.
  do 2 f_equal. f_equal; lra.
Qed.

Lemma seed_skipped_silently_witness :
  let s := mkDseg 4 5 acinar in
  let g := mkGeom (mkVector 0.0 0.0 52.0) 45.0 52.0
                  (0.7 + C_OFFSET) (0.05 + C_OFFSET) in
  let st := mkState [mkVector 0 0 57.25] 0 [] [] [] in
  exists st',
    seed_once (fun _ => 0) s g st = (Ok tt, st') /\
    cell_centers st' = [mkVector 0 0 57.25].
Proof.
  intros s g st.
  assert (Hs : In s DSEG) by (simpl; auto 6).
  assert (Hg : seg_geom s = Ok g) by reflexivity.
  assert (Hfail : forall j, (j < RETRIES)%nat ->
     exists a,
       candidate_at (fun _ => 0) s g (rpos st + draws_per (ctype s) * j)
       = Ok a /\
       accept (cell_centers st) (attempt_point a) (min_dist (ctype s))
       = false).
  { intros j _. eexists. split; [apply stuck_candidate|].
    unfold accept, too_close. simpl.
    destruct (Rlt_dec _ _) as [Hlt|Hge]; [reflexivity|].
    exfalso. apply Hge. unfold length, vsub. simpl.
    replace ((0 - 0) * (0 - 0) + (0 - 0) * (0 - 0)
             + (57.25 - 57.25) * (57.25 - 57.25)) with 0 by ring.
    rewrite sqrt_0. unfold C_RADIUS. lra. }
  destruct (seed_skipped_silently (fun _ => 0) s g st Hs Hg Hfail)
    as (_ & (st' & Heq & Hcc & _) & _).
  exists st'. split; [exact Heq|exact Hcc].
Defined.

(** ** Dependence on the random stream *)

Lemma retry_rpos rng s g n :
  forall j st, (rpos st <= rpos (snd (retry rng n j s g st)))%nat.
Proof.
  induction n as [|n IH]; intros j st; [simpl; lia|].
  rewrite retry_S.
  destruct (candidate_at rng s g (rpos st)) as [a|e]; [|simpl; lia].
  cbv zeta. destruct (accept _ _ _); [simpl; lia|].
  match goal with |- context [retry rng n ?j' s g ?st1] =>
    specialize (IH j' st1) end.
  simpl in IH. lia.
Qed.

Lemma retry_S_rpos rng s g n j st :
  (draws_per (ctype s) + rpos st
   <= rpos (snd (retry rng (S n) j s g st)))%nat.
Proof.
  rewrite retry_S.
  destruct (candidate_at rng s g (rpos st)) as [a|e]; [|simpl; lia].
  cbv zeta. destruct (accept _ _ _); [simpl; lia|].
  match goal with |- context [retry rng n ?j' s g ?st1] =>
    pose proof (retry_rpos rng s g n j' st1) as H end.
  simpl in H. lia.
Qed.

Lemma seed_once_rpos rng s g st :
  (rpos st <= rpos (snd (seed_once rng s g st)))%nat.
Proof.
  rewrite seed_once_eq.
  pose proof (retry_rpos rng s g RETRIES 0%Z st) as H.
  destruct (retry rng RETRIES 0%Z s g st) as [[[[j p]|]|e] st'];
    simpl in H |- *; lia.
Qed.

Lemma seeds_rpos rng s g n st :
  (rpos st <= rpos (snd (seeds rng n s g st)))%nat.
Proof.
  apply (seeds_lift rng (fun a b => (rpos a <= rpos b)%nat));
    [intros; lia | intros; lia |].
  apply seed_once_rpos.
Qed.

Lemma create_seg_cells_rpos rng s st :
  (rpos st <= rpos (snd (create_seg_cells rng s st)))%nat.
Proof.
  apply (create_seg_cells_lift rng (fun a b => (rpos a <= rpos b)%nat));
    [intros; lia | intros; lia |].
  intros g _. apply seed_once_rpos.
Qed.

Lemma cells_loop_rpos rng segs st :
  (rpos st <= rpos (snd (cells_loop rng segs st)))%nat.
Proof.
  apply (cells_loop_lift rng (fun a b => (rpos a <= rpos b)%nat));
    [intros; lia | intros; lia |].
  intros s g _ _. apply seed_once_rpos.
Qed.

Section SameDraws.

Variables rng1 rng2 : nat -> R.

Lemma candidate_at_same s g k :
  agree rng1 rng2 k (draws_per (ctype s) + k) ->
  candidate_at rng1 s g k = candidate_at rng2 s g k.
Proof.
  unfold agree, candidate_at, gen_try, acinar_try, duct_try, bind, uniform.
  intros H. destruct (ctype s); simpl in *;
    rewrite ?(H k), ?(H (S k)), ?(H (S (S k))) by lia; reflexivity.
Qed.

Lemma retry_same s g n :
  forall j st,
    agree rng1 rng2 (rpos st) (rpos (snd (retry rng1 n j s g st))) ->
    retry rng1 n j s g st = retry rng2 n j s g st.
Proof.
  induction n as [|n IH]; intros j st Hag; [reflexivity|].
  pose proof (retry_S_rpos rng1 s g n j st) as Hpos.
  assert (Hc : candidate_at rng1 s g (rpos st)
               = candidate_at rng2 s g (rpos st))
    by (apply candidate_at_same; intros k Hk; apply Hag; lia).
  rewrite retry_S in Hag. rewrite !retry_S, <- Hc.
  destruct (candidate_at rng1 s g (rpos st)) as [a|e]; [|reflexivity].
  cbv zeta in Hag |- *.
  destruct (accept _ _ _); [reflexivity|].
  apply IH. intros k Hk. apply Hag. simpl in Hk. lia.
Qed.

Lemma seed_once_same s g st :
  agree rng1 rng2 (rpos st) (rpos (snd (seed_once rng1 s g st))) ->
  seed_once rng1 s g st = seed_once rng2 s g st.
Proof.
  intros Hag. rewrite seed_once_eq in Hag. rewrite !seed_once_eq.
  pose proof (retry_rpos rng1 s g RETRIES 0%Z st) as Hpos.
  assert (Hr : retry rng1 RETRIES 0%Z s g st = retry rng2 RETRIES 0%Z s g st).
  { apply retry_same. intros k Hk. apply Hag.
    destruct (retry rng1 RETRIES 0%Z s g st) as [[[[j p]|]|e] st'];
      simpl in Hk |- *; lia. }
  rewrite <- Hr.
  destruct (retry rng1 RETRIES 0%Z s g st) as [[[[j p]|]|e] st'];
    try reflexivity.
  simpl in Hag, Hpos. rewrite (Hag (rpos st')) by lia. reflexivity.
Qed.

Lemma seeds_same s g n :
  forall st,
    agree rng1 rng2 (rpos st) (rpos (snd (seeds rng1 n s g st))) ->
    seeds rng1 n s g st = seeds rng2 n s g st.
Proof.
  induction n as [|n IH]; intros st Hag; [reflexivity|].
  rewrite seeds_S in Hag. rewrite !seeds_S.
  pose proof (seed_once_rpos rng1 s g st) as Hpos.
  assert (Hs : seed_once rng1 s g st = seed_once rng2 s g st).
  { apply seed_once_same. intros k Hk. apply Hag.
    destruct (seed_once rng1 s g st) as [[u|e] st']; simpl in Hk |- *;
      [pose proof (seeds_rpos rng1 s g n st')|]; lia. }
  rewrite <- Hs.
  destruct (seed_once rng1 s g st) as [[u|e] st']; [|reflexivity].
  apply IH. intros k Hk. apply Hag. simpl in Hpos. lia.
Qed.

Lemma create_seg_cells_same s st :
  agree rng1 rng2 (rpos st) (rpos (snd (create_seg_cells rng1 s st))) ->
  create_seg_cells rng1 s st = create_seg_cells rng2 s st.
Proof.
  rewrite !create_seg_cells_eq.
  destruct (seg_geom s); [apply seeds_same|reflexivity].
Qed.

Lemma cells_loop_same segs :
  forall st,
    agree rng1 rng2 (rpos st) (rpos (snd (cells_loop rng1 segs st))) ->
    cells_loop rng1 segs st = cells_loop rng2 segs st.
Proof.
  induction segs as [|s rest IH]; intros st Hag; [reflexivity|].
  rewrite cells_loop_cons in Hag. rewrite !cells_loop_cons.
  pose proof (create_seg_cells_rpos rng1 s st) as Hpos.
  assert (Hs : create_seg_cells rng1 s st = create_seg_cells rng2 s st).
  { apply create_seg_cells_same. intros k Hk. apply Hag.
    destruct (create_seg_cells rng1 s st) as [[u|e] st']; simpl in Hk |- *;
      [pose proof (cells_loop_rpos rng1 rest st')|]; lia. }
  rewrite <- Hs.
  destruct (create_seg_cells rng1 s st) as [[u|e] st']; [|reflexivity].
  apply IH. intros k Hk. apply Hag. simpl in Hpos. lia.
Qed.

End SameDraws.

(** C7: two runs of [create_cells] from the same state whose generators
    return the same value at every draw the first run makes produce the
    same trace (the same candidates with the same accept/reject decisions,
    in the same order), the same registry of accepted centers and the same
    result. *)
Theorem create_cells_deterministic (rng1 rng2 : nat -> R) (st : State)
  (Hsame : forall n,
      (rpos st <= n < rpos (snd (create_cells rng1 st)))%nat ->
      rng1 n = rng2 n) :
  trace (snd (create_cells rng1 st)) = trace (snd (create_cells rng2 st)) /\
  cell_centers (snd (create_cells rng1 st))
  = cell_centers (snd (create_cells rng2 st)) /\
  create_cells rng1 st = create_cells rng2 st.
Proof.
  assert (H : create_cells rng1 st = create_cells rng2 st)
    by (apply cells_loop_same; exact Hsame).
  rewrite H. repeat split.
Qed.

Lemma create_cells_deterministic_witness :
  create_cells (fun _ => 0) init_state
  = create_cells (fun n => 0 * INR n) init_state.
Proof.
  apply (create_cells_deterministic (fun _ => 0) (fun n => 0 * INR n)
                                    init_state).
  intros n _. ring.
Defined.

(** ** What the trace of a run contains *)

Lemma traced_refl P st : traced P st st.
Proof. exists []. now rewrite app_nil_r. Qed.

Lemma traced_trans P a b c : traced P a b -> traced P b c -> traced P a c.
Proof.
  intros (x & Hx & Px) (y & Hy & Py). exists (x ++ y).
  split; [now rewrite Hy, Hx, app_assoc|]. apply Forall_app. now split.
Qed.

Lemma seed_once_traced rng s g st :
  traced (drawn rng s g (cell_centers st)) st (snd (seed_once rng s g st)).
Proof.
  rewrite seed_once_eq.
  pose proof (retry_spec rng s g RETRIES 0%Z st) as H. cbv zeta in H.
  destruct (retry rng RETRIES 0%Z s g st) as [[[[j p]|]|e] st'];
    simpl in H |- *; destruct H as (_ & _ & _ & evs & Htr & Hdr & _);
    exists evs; split; assumption.
Qed.

Lemma drawn_sampled rng s g cs e :
  In s DSEG -> seg_geom s = Ok g -> drawn rng s g cs e ->
  ev_seg e = s /\ sampled rng e.
Proof.
  intros Hs Hg (Hseg & (k & Hk) & _). split; [assumption|].
  unfold sampled. rewrite Hseg. split; [assumption|]. now exists g, k.
Qed.

Lemma seed_once_sampled rng s g st :
  In s DSEG -> seg_geom s = Ok g ->
  traced (fun e => ev_seg e = s /\ sampled rng e) st
         (snd (seed_once rng s g st)).
Proof.
  intros Hs Hg. destruct (seed_once_traced rng s g st) as (evs & Htr & Hdr).
  exists evs. split; [assumption|].
  eapply Forall_impl; [|exact Hdr].
  intros e. now apply drawn_sampled.
Qed.

Lemma retry_logs rng s g n j st :
  good s g ->
  (List.length (trace st)
   < List.length (trace (snd (retry rng (S n) j s g st))))%nat.
Proof.
  intros Hgood. rewrite retry_S.
  destruct (good_candidate rng s g (rpos st) Hgood) as [a ->]. cbv zeta.
  destruct (accept _ _ _).
  - simpl. rewrite length_app. simpl. lia.
  - match goal with |- context [retry rng n ?j' s g ?st1] =>
      pose proof (retry_spec rng s g n j' st1) as H end.
    cbv zeta in H. destruct H as (_ & _ & _ & evs & -> & _).
    simpl. rewrite !length_app. simpl. lia.
Qed.

Lemma RETRIES_pos : exists n, RETRIES = S n.
Proof.
  exists (pred RETRIES). unfold RETRIES. lia.
Qed.

Lemma seed_once_logs rng s g st :
  good s g ->
  (List.length (trace st)
   < List.length (trace (snd (seed_once rng s g st))))%nat.
Proof.
  intros Hgood. rewrite seed_once_eq.
  destruct RETRIES_pos as [n ->].
  pose proof (retry_logs rng s g n 0%Z st Hgood) as H.
  destruct (retry rng (S n) 0%Z s g st) as [[[[j p]|]|e] st']; exact H.
Qed.

Lemma create_seg_cells_trace rng s st :
  In s DSEG ->
  exists evs,
    trace (snd (create_seg_cells rng s st)) = trace st ++ evs /\
    evs <> [] /\
    Forall (fun e => ev_seg e = s /\ sampled rng e) evs.
Proof.
  intros Hs. destruct (seg_geom_DSEG s Hs) as (g & Hg & _ & _ & _ & Hgood).
  set (P := fun e => ev_seg e = s /\ sampled rng e).
  assert (Hstep : forall st0, traced P st0 (snd (seed_once rng s g st0)))
    by (intros st0; now apply seed_once_sampled).
  rewrite create_seg_cells_eq, Hg. unfold SEEDS. rewrite seeds_S.
  pose proof (Hstep st) as (evs1 & Htr1 & HP1).
  pose proof (seed_once_logs rng s g st Hgood) as Hlen.
  pose proof (seed_once_ok rng s g st Hgood) as Hok.
  destruct (seed_once rng s g st) as [[u|e] st1];
    simpl in Htr1, Hlen, Hok; [|discriminate].
  cbv beta iota.
  destruct (seeds_lift rng (traced P) (traced_refl P) (traced_trans P)
                       s g Hstep 49 st1) as (evs2 & Htr2 & HP2).
  exists (evs1 ++ evs2). split; [|split].
  - now rewrite Htr2, Htr1, app_assoc.
  - destruct evs1; [|discriminate].
    rewrite app_nil_r in Htr1. rewrite Htr1 in Hlen. lia.
  - apply Forall_app. now split.
Qed.

Lemma create_cells_trace rng e :
  In e (trace (snd (create_cells rng init_state))) -> sampled rng e.
Proof.
  destruct (cells_loop_lift rng (traced (sampled rng))
              (traced_refl _) (traced_trans _) DSEG) with (st := init_state)
    as (evs & Htr & HP).
  - intros s g Hs Hg st.
    destruct (seed_once_sampled rng s g st Hs Hg) as (evs & Htr & HP).
    exists evs. split; [assumption|].
    eapply Forall_impl; [|exact HP]. now intros e' [_ H].
  - unfold create_cells. rewrite Htr. simpl.
    intros Hin. rewrite Forall_forall in HP. now apply HP.
Qed.

(** ** The candidates themselves *)

Lemma candidate_acinar rng s g k a :
  ctype s = acinar -> candidate_at rng s g k = Ok a ->
  exists p, a = AcinarTry (0.0 + (2.0 * PI - 0.0) * rng k)
                          (0.0 + (0.8 * PI - 0.0) * rng (S k)) p.
Proof.
  unfold candidate_at, gen_try, acinar_try, bind, uniform, ret.
  intros ->. simpl. intros [= <-]. eauto.
Qed.

Lemma candidate_duct rng s g k a :
  ctype s <> acinar -> candidate_at rng s g k = Ok a ->
  let a1 := 0.0 + (2.0 * PI - 0.0) * rng k in
  let z := (g_z1 g + C_RADIUS)
           + (g_z2 g - (g_z1 g + C_RADIUS)) * rng (S k) in
  let r := (0.95 + (1.05 - 0.95) * rng (S (S k)))
           * cone_radius (g_z1 g) (g_z12 g) (g_r1 g) (g_r12 g) z in
  a = DuctTry a1 z r (mkVector (r * sin a1) (r * cos a1) z).
Proof.
  unfold candidate_at, gen_try, duct_try, bind, uniform, ret, raise.
  intros Ht.
  destruct (ctype s); [contradiction| |]; simpl;
    destruct (Req_dec_T (g_z12 g) 0); simpl; intros [= <-]; reflexivity.
Qed.

Lemma unit_scaled (c u : R) : 0 <= c -> 0 <= u <= 1 -> 0 <= c * u <= c.
Proof.
  intros Hc [H0 H1]. split.
  - now apply Rmult_le_pos.
  - rewrite <- (Rmult_1_r c) at 2. now apply Rmult_le_compat_l.
Qed.

Lemma radial_distance r a :
  0 <= r -> sqrt ((r * sin a) * (r * sin a) + (r * cos a) * (r * cos a)) = r.
Proof.
  intros Hr.
  replace ((r * sin a) * (r * sin a) + (r * cos a) * (r * cos a))
    with (r * r * (Rsqr (sin a) + Rsqr (cos a))) by (unfold Rsqr; ring).
  rewrite sin2_cos2, Rmult_1_r. now apply sqrt_square.
Qed.

Lemma cone_radius_range z1 z2 r1 r2 z :
  z1 < z2 -> r2 <= r1 -> z1 <= z <= z2 ->
  r2 <= cone_radius z1 (z2 - z1) r1 (r2 - r1) z <= r1.
Proof.
  intros Hz Hr [Hlo Hhi].
  destruct (cone_radius_ends z1 z2 r1 r2 Hz) as [E1 E2].
  pose proof (cone_radius_decr z1 (z2 - z1) r1 (r2 - r1) z z2
                ltac:(lra) ltac:(lra) Hhi).
  pose proof (cone_radius_decr z1 (z2 - z1) r1 (r2 - r1) z1 z
                ltac:(lra) ltac:(lra) Hlo).
  lra.
Qed.

Lemma seg_geom_tables s g : seg_geom s = Ok g -> geom_of_tables s g.
Proof.
  unfold seg_geom, geom_of_tables. intros H.
  destruct (PTS_at (idx_out s)) as [po|]; [|discriminate].
  destruct (PTS_at (idx_in s)) as [pi|]; [|discriminate].
  injection H as <-. exists po, pi. simpl.
  unfold C_OFFSET, C_RADIUS. repeat split; lra.
Qed.

Lemma sampled_acinar rng e :
  unit_draws rng -> sampled rng e -> ctype (ev_seg e) = acinar ->
  acinar_angle_ok e.
Proof.
  intros Hu (_ & g & k & _ & Hc) Ht.
  destruct (candidate_acinar rng _ g k _ Ht Hc) as [p Hp].
  unfold acinar_angle_ok. rewrite Hp.
  do 3 eexists. split; [reflexivity|].
  pose proof PI_RGT_0 as Hpi.
  pose proof (unit_scaled (0.8 * PI) (rng (S k)) ltac:(lra) (Hu (S k))).
  lra.
Qed.

Lemma sampled_duct rng e :
  unit_draws rng -> sampled rng e -> ctype (ev_seg e) <> acinar ->
  exists g, seg_geom (ev_seg e) = Ok g /\ geom_of_tables (ev_seg e) g /\
            duct_try_ok g e.
Proof.
  intros Hu (Hs & g & k & Hg & Hc) Ht.
  exists g. split; [assumption|]. split; [now apply seg_geom_tables|].
  destruct (seg_geom_DSEG _ Hs) as (g' & Hg' & Hz & Hr & Hr2 & _).
  rewrite Hg in Hg'. injection Hg' as <-.
  unfold duct_try_ok.
  pose proof (candidate_duct rng _ g k _ Ht Hc) as Ha. cbv zeta in Ha.
  unfold g_z12, g_r12 in Ha.
  set (z := g_z1 g + C_RADIUS
            + (g_z2 g - (g_z1 g + C_RADIUS)) * rng (S k)) in *.
  set (cr := cone_radius (g_z1 g) (g_z2 g - g_z1 g) (g_r1 g)
                         (g_r2 g - g_r1 g) z) in *.
  pose proof PI_RGT_0 as Hpi.
  pose proof (unit_scaled (2 * PI) (rng k) ltac:(lra) (Hu k)) as Ha1.
  pose proof (unit_scaled (g_z2 g - (g_z1 g + C_RADIUS)) (rng (S k))
                ltac:(lra) (Hu (S k))) as Hzr.
  pose proof (Hu (S (S k))) as Hu3.
  assert (Hzin : g_z1 g + C_RADIUS <= z <= g_z2 g) by (subst z; lra).
  assert (Hcr : g_r2 g <= cr <= g_r1 g).
  { apply cone_radius_range; unfold C_RADIUS in *; lra. }
  assert (Hrpos : 0 <= (0.95 + 0.1 * rng (S (S k))) * cr)
    by (apply Rmult_le_pos; lra).
  replace (0.0 + (2.0 * PI - 0.0) * rng k) with (2 * PI * rng k)
    in Ha by lra.
  replace (0.95 + (1.05 - 0.95) * rng (S (S k)))
    with (0.95 + 0.1 * rng (S (S k))) in Ha by lra.
  exists (2 * PI * rng k), z, ((0.95 + 0.1 * rng (S (S k))) * cr).
  eexists. exists (rng k), (rng (S k)), (rng (S (S k))).
  split; [exact Ha|].
  split; [repeat split; apply Hu|].
  do 4 (split; [first [reflexivity | assumption | lra]|]).
  split; [reflexivity|]. split; [lra|]. split; [reflexivity|].
  simpl. now apply radial_distance.
Qed.

(** C5: with unit draws, every candidate logged by [create_seg_cells] for
    the acinar segment, and every acinar candidate of a whole run of
    [create_cells], has its polar angle [a2] in [0, 0.8 pi]; at least one
    such candidate is drawn per call. *)
Theorem acinar_polar_angle_in_range (rng : nat -> R) (Hu : unit_draws rng) :
  (forall s st,
      In s DSEG -> ctype s = acinar ->
      exists evs,
        trace (snd (create_seg_cells rng s st)) = trace st ++ evs /\
        evs <> [] /\ Forall acinar_angle_ok evs) /\
  (forall e,
      In e (trace (snd (create_cells rng init_state))) ->
      ctype (ev_seg e) = acinar -> acinar_angle_ok e).
Proof.
  split.
  - intros s st Hs Ht.
    destruct (create_seg_cells_trace rng s st Hs) as (evs & Htr & Hne & HP).
    exists evs. repeat split; try assumption.
    eapply Forall_impl; [|exact HP].
    intros e [He Hsam]. apply (sampled_acinar rng e Hu Hsam). now rewrite He.
  - intros e He Ht. apply (sampled_acinar rng e Hu); [|assumption].
    now apply create_cells_trace.
Qed.

Lemma zero_draws_unit : unit_draws (fun _ => 0).
Proof. intros n. lra. Qed.

Lemma acinar_polar_angle_in_range_witness :
  exists evs,
    trace (snd (create_seg_cells (fun _ => 0) (mkDseg 4 5 acinar) init_state))
    = evs /\
    evs <> [] /\ Forall acinar_angle_ok evs.
Proof.
  destruct (acinar_polar_angle_in_range (fun _ => 0) zero_draws_unit)
    as [H _].
  apply (H (mkDseg 4 5 acinar) init_state); [simpl; auto 6|reflexivity].
Defined.

(** C4, as stated, fails on the height: on the outlet segment
    ([z1 = 0], [z2 = 10]) the height of a candidate is not the image of its
    draw over [z1, z2], and the height [z1] itself is never drawn. *)
Lemma duct_height_skips_outer_end :
  let s := mkDseg 0 1 striated in
  let g := mkGeom (mkVector 0.0 0.0 10.0) 0.0 10.0
                  (4.0 + C_OFFSET) (3.7 + C_OFFSET) in
  seg_geom s = Ok g /\
  ~ (forall rng k a1 z r p,
        unit_draws rng ->
        candidate_at rng s g k = Ok (DuctTry a1 z r p) ->
        z = g_z1 g + (g_z2 g - g_z1 g) * rng (S k)) /\
  ~ (forall z0, g_z1 g <= z0 <= g_z2 g ->
        exists rng k a1 r p,
          unit_draws rng /\
          candidate_at rng s g k = Ok (DuctTry a1 z0 r p)).
Proof.
  intros s g.
  assert (Ht : ctype s <> acinar) by discriminate.
  assert (Hgood : good s g) by (right; unfold g_z12; simpl; lra).
  split; [reflexivity|split].
  - intros H.
    destruct (good_candidate (fun _ => 0) s g 0 Hgood) as [a Ha].
    pose proof (candidate_duct _ s g 0 a Ht Ha) as Hd. cbv zeta in Hd.
    rewrite Hd in Ha.
    specialize (H _ _ _ _ _ _ zero_draws_unit Ha).
    simpl in H. unfold C_RADIUS in H. lra.
  - intros H.
    destruct (H 0.0 ltac:(simpl; lra)) as (rng & k & a1 & r & p & Hu & Ha).
    pose proof (candidate_duct _ s g k _ Ht Ha) as Hd. cbv zeta in Hd.
    injection Hd as _ Hz _ _.
    pose proof (Hu (S k)) as Hk. simpl in Hz. unfold C_RADIUS in Hz. lra.
Qed.

(** Every logged candidate is the image of draws the call consumed. *)

Lemma reads_refl rng st : reads rng st st.
Proof. split; [lia|]. exists []. now rewrite app_nil_r. Qed.

Lemma reads_trans rng a b c : reads rng a b -> reads rng b c -> reads rng a c.
Proof.
  intros (Hab & x & Hx & Px) (Hbc & y & Hy & Py). split; [lia|].
  exists (x ++ y). split; [now rewrite Hy, Hx, app_assoc|].
  apply Forall_app. split.
  - eapply Forall_impl; [|exact Px].
    intros e (k & Hlo & Hhi & Hd). exists k. repeat split; [lia|lia|apply Hd..].
  - eapply Forall_impl; [|exact Py].
    intros e (k & Hlo & Hhi & Hd). exists k. repeat split; [lia|lia|apply Hd..].
Qed.

Lemma retry_reads rng s g n :
  forall j st,
    let st' := snd (retry rng n j s g st) in
    exists evs,
      trace st' = trace st ++ evs /\
      Forall (fun e =>
                ev_seg e = s /\
                exists k, (rpos st <= k)%nat /\
                          (k + draws_per (ctype s) <= rpos st')%nat /\
                          candidate_at rng s g k = Ok (ev_try e)) evs.
Proof.
  induction n as [|n IH]; intros j st.
  - exists []. simpl. rewrite app_nil_r. split; [reflexivity|constructor].
  - cbv zeta. pose proof (retry_S_rpos rng s g n j st) as Hpos.
    rewrite retry_S in Hpos |- *.
    destruct (candidate_at rng s g (rpos st)) as [a|e] eqn:Hc.
    + cbv zeta in Hpos |- *.
      destruct (accept (cell_centers st) (attempt_point a)
                       (min_dist (ctype s))).
      * exists [mkEvent s a true]. simpl. split; [reflexivity|].
        constructor; [|constructor]. split; [reflexivity|].
        exists (rpos st). simpl. repeat split; [lia|lia|exact Hc].
      * match type of Hpos with context [retry rng n ?j' s g ?st1] =>
          specialize (IH j' st1); cbv zeta in IH;
          pose proof (retry_rpos rng s g n j' st1) as Hmono;
          destruct (retry rng n j' s g st1) as [r st'] end.
        simpl in IH, Hpos, Hmono |- *.
        destruct IH as (evs & Htr & Hall).
        exists (mkEvent s a false :: evs). split.
        { rewrite Htr, <- app_assoc. reflexivity. }
        constructor.
        { split; [reflexivity|]. exists (rpos st). simpl.
          repeat split; [lia|lia|exact Hc]. }
        eapply Forall_impl; [|exact Hall].
        intros e (He & k & Hlo & Hhi & Hk). split; [assumption|].
        exists k. repeat split; [lia|lia|exact Hk].
    + exists []. simpl. rewrite app_nil_r. split; [reflexivity|constructor].
Qed.

Lemma seed_once_reads rng s g st :
  In s DSEG -> seg_geom s = Ok g ->
  reads rng st (snd (seed_once rng s g st)) /\
  exists evs,
    trace (snd (seed_once rng s g st)) = trace st ++ evs /\
    Forall (fun e => ev_seg e = s) evs.
Proof.
  intros Hs Hg.
  pose proof (seed_once_rpos rng s g st) as Hmono.
  rewrite seed_once_eq in Hmono |- *.
  pose proof (retry_reads rng s g RETRIES 0%Z st) as Hr. cbv zeta in Hr.
  destruct Hr as (evs & Htr & Hall).
  assert (Hfin : forall st',
             (rpos (snd (retry rng RETRIES 0%Z s g st)) <= rpos st')%nat ->
             Forall (fun e =>
                exists k, (rpos st <= k)%nat /\
                          (k + draws_per (ctype (ev_seg e)) <= rpos st')%nat /\
                          drawn_at rng e k) evs).
  { intros st' Hle. eapply Forall_impl; [|exact Hall].
    intros e (He & k & Hlo & Hhi & Hk). exists k. unfold drawn_at.
    rewrite He. repeat split; [lia|lia|assumption|]. exists g. now split. }
  assert (Hseg : Forall (fun e => ev_seg e = s) evs)
    by (eapply Forall_impl; [|exact Hall]; now intros e [He _]).
  destruct (retry rng RETRIES 0%Z s g st) as [[[[j p]|]|e] st'];
    cbn [fst snd cell_centers rpos cells stdout trace] in *;
    (split; [split; [cbn [rpos]; lia|]|]; exists evs;
     (split; [cbn [trace]; assumption|]); try assumption;
     apply Hfin; cbn [rpos]; lia).
Qed.

Lemma create_seg_cells_reads rng s st :
  In s DSEG ->
  let st' := snd (create_seg_cells rng s st) in
  exists evs,
    trace st' = trace st ++ evs /\
    Forall (fun e =>
              ev_seg e = s /\
              exists k, (rpos st <= k)%nat /\
                        (k + draws_per (ctype s) <= rpos st')%nat /\
                        drawn_at rng e k) evs.
Proof.
  intros Hs. cbv zeta.
  set (Rel := fun a b : State =>
                reads rng a b /\
                exists evs, trace b = trace a ++ evs /\
                            Forall (fun e => ev_seg e = s) evs).
  assert (HRel : Rel st (snd (create_seg_cells rng s st))).
  { apply (create_seg_cells_lift rng Rel).
    - intros a. split; [apply reads_refl|].
      exists []. rewrite app_nil_r. split; [reflexivity|constructor].
    - intros a b c [Hab (x & Hx & Px)] [Hbc (y & Hy & Py)].
      split; [eapply reads_trans; eassumption|].
      exists (x ++ y). split; [now rewrite Hy, Hx, app_assoc|].
      apply Forall_app. now split.
    - intros g Hg st0. now apply seed_once_reads. }
  destruct HRel as [(_ & evs & Htr & Hall) (evs' & Htr' & Hseg)].
  rewrite Htr in Htr'. apply app_inv_head in Htr'. subst evs'.
  exists evs. split; [exact Htr|].
  rewrite Forall_forall in Hall, Hseg. apply Forall_forall.
  intros e He. specialize (Hall e He). specialize (Hseg e He).
  split; [exact Hseg|].
  destruct Hall as (k & Hlo & Hhi & Hd). rewrite Hseg in Hhi.
  exists k. split; [exact Hlo|]. split; [exact Hhi|exact Hd].
Qed.

Lemma create_cells_reads rng st :
  reads rng st (snd (create_cells rng st)).
Proof.
  apply (cells_loop_lift rng (reads rng) (reads_refl rng) (reads_trans rng)).
  intros s g Hs Hg st0. now apply seed_once_reads.
Qed.

Lemma drawn_duct rng e k g :
  unit_draws rng -> drawn_at rng e k -> seg_geom (ev_seg e) = Ok g ->
  ctype (ev_seg e) <> acinar ->
  geom_of_tables (ev_seg e) g /\ duct_try_drawn rng g k e.
Proof.
  intros Hu (Hs & g0 & Hg0 & Hc) Hg Ht.
  rewrite Hg in Hg0. injection Hg0 as <-.
  split; [now apply seg_geom_tables|].
  destruct (seg_geom_DSEG _ Hs) as (g' & Hg' & Hz & Hr & Hr2 & _).
  rewrite Hg in Hg'. injection Hg' as <-.
  unfold duct_try_drawn. cbv zeta.
  pose proof (candidate_duct rng _ g k _ Ht Hc) as Ha. cbv zeta in Ha.
  unfold g_z12, g_r12 in Ha.
  set (z := g_z1 g + C_RADIUS
            + (g_z2 g - (g_z1 g + C_RADIUS)) * rng (S k)) in *.
  set (cr := cone_radius (g_z1 g) (g_z2 g - g_z1 g) (g_r1 g)
                         (g_r2 g - g_r1 g) z) in *.
  pose proof PI_RGT_0 as Hpi.
  pose proof (unit_scaled (2 * PI) (rng k) ltac:(lra) (Hu k)) as Ha1.
  pose proof (unit_scaled (g_z2 g - (g_z1 g + C_RADIUS)) (rng (S k))
                ltac:(lra) (Hu (S k))) as Hzr.
  pose proof (Hu (S (S k))) as Hu3.
  assert (Hzin : g_z1 g + C_RADIUS <= z <= g_z2 g) by (subst z; lra).
  assert (Hcr : g_r2 g <= cr <= g_r1 g).
  { apply cone_radius_range; unfold C_RADIUS in *; lra. }
  assert (Hrpos : 0 <= (0.95 + 0.1 * rng (S (S k))) * cr)
    by (apply Rmult_le_pos; lra).
  replace (0.0 + (2.0 * PI - 0.0) * rng k) with (2 * PI * rng k)
    in Ha by lra.
  replace (0.95 + (1.05 - 0.95) * rng (S (S k)))
    with (0.95 + 0.1 * rng (S (S k))) in Ha by lra.
  exists (2 * PI * rng k), z, ((0.95 + 0.1 * rng (S (S k))) * cr).
  eexists. split; [exact Ha|].
  do 4 (split; [first [reflexivity | assumption | lra]|]).
  split; [reflexivity|]. split; [lra|]. split; [reflexivity|].
  simpl. now apply radial_distance.
Qed.

(** C4 (amended): with unit draws, every candidate logged for an
    intercalated or striated segment is the image of three consecutive
    values [rng k], [rng (S k)], [rng (S (S k))] that the call read from the
    generator: its azimuth is the first value scaled onto [0, 2 pi], its
    height the second scaled onto [z1 + C_RADIUS, z2] (not onto the whole of
    [z1, z2]), and it lies at that height at a distance from the duct axis
    equal to the cone radius at that height (interpolated between the two
    table radii plus [C_OFFSET]) times the third value scaled onto
    [0.95, 1.05]. *)
Theorem duct_candidate_placement (rng : nat -> R) (Hu : unit_draws rng) :
  (forall s st,
      In s DSEG -> ctype s <> acinar ->
      let st' := snd (create_seg_cells rng s st) in
      exists g evs,
        seg_geom s = Ok g /\ geom_of_tables s g /\
        trace st' = trace st ++ evs /\
        evs <> [] /\
        Forall (fun e =>
                  exists k, (rpos st <= k)%nat /\ (k + 3 <= rpos st')%nat /\
                            duct_try_drawn rng g k e) evs) /\
  (forall e,
      In e (trace (snd (create_cells rng init_state))) ->
      ctype (ev_seg e) <> acinar ->
      exists g k,
        seg_geom (ev_seg e) = Ok g /\ geom_of_tables (ev_seg e) g /\
        (k + 3 <= rpos (snd (create_cells rng init_state)))%nat /\
        duct_try_drawn rng g k e).
Proof.
  split.
  - intros s st Hs Ht. cbv zeta.
    destruct (seg_geom_DSEG s Hs) as (g & Hg & _).
    destruct (create_seg_cells_trace rng s st Hs) as (evs & Htr & Hne & _).
    destruct (create_seg_cells_reads rng s st Hs) as (evs' & Htr' & Hall).
    cbv zeta in Htr', Hall.
    rewrite Htr in Htr'. apply app_inv_head in Htr'. subst evs'.
    assert (Hd : draws_per (ctype s) = 3%nat)
      by (destruct (ctype s); [contradiction|reflexivity|reflexivity]).
    exists g, evs. repeat split; try assumption.
    + now apply seg_geom_tables.
    + eapply Forall_impl; [|exact Hall].
      intros e (He & k & Hlo & Hhi & Hdr). exists k.
      rewrite Hd in Hhi. repeat split; try assumption.
      apply (drawn_duct rng e k g Hu Hdr); now rewrite He.
  - intros e He Ht.
    destruct (create_cells_reads rng init_state) as (_ & evs & Htr & Hall).
    simpl in Htr. rewrite Htr in He.
    rewrite Forall_forall in Hall.
    destruct (Hall e He) as (k & _ & Hhi & Hdr).
    pose proof Hdr as (_ & g & Hg & _).
    assert (Hd : draws_per (ctype (ev_seg e)) = 3%nat)
      by (destruct (ctype (ev_seg e));
          [contradiction|reflexivity|reflexivity]).
    rewrite Hd in Hhi.
    destruct (drawn_duct rng e k g Hu Hdr Hg Ht) as [Htab Hok].
    exists g, k. repeat split; assumption.
Qed.

Lemma duct_candidate_placement_witness :
  let st' := snd (create_seg_cells (fun _ => 0) (mkDseg 0 1 striated)
                                   init_state) in
  exists g evs,
    seg_geom (mkDseg 0 1 striated) = Ok g /\
    trace st' = evs /\
    evs <> [] /\
    Forall (fun e =>
              exists k, (k + 3 <= rpos st')%nat /\
                        duct_try_drawn (fun _ => 0) g k e) evs.
Proof.
  intros st'.
  destruct (duct_candidate_placement (fun _ => 0) zero_draws_unit)
    as [H _].
  destruct (H (mkDseg 0 1 striated) init_state)
    as (g & evs & Hg & _ & Htr & Hne & Hall);
    [simpl; auto | discriminate |].
  exists g, evs. fold st' in Htr, Hall.
  split; [exact Hg|]. split; [exact Htr|]. split; [exact Hne|].
  eapply Forall_impl; [|exact Hall].
  intros e (k & _ & Hhi & Hd). exists k. now split.
Defined.

(** * Further properties of the code *)

(** ** [too_close] and the guard *)

(** X1: [too_close(p, dist)] is [True] exactly when some registered center
    lies strictly closer to [p] than [dist]. *)
Theorem too_close_true_iff (cs : list Vector) (p : Vector) (d : R) :
  too_close cs p d = true <->
  exists c, In c cs /\ length (vsub p c) < d.
Proof.
  induction cs as [|c cs IH]; simpl.
  - split; [discriminate|]. intros (c & [] & _).
  - destruct (Rlt_dec (length (vsub p c)) d) as [Hlt|Hge].
    + split; [|reflexivity]. intros _. exists c. auto.
    + rewrite IH. split.
      * intros (c' & Hin & Hc'). exists c'. auto.
      * intros (c' & [<-|Hin] & Hc'); [contradiction|]. exists c'. auto.
Qed.

Lemma accept_true_iff cs p d :
  accept cs p d = true <-> forall c, In c cs -> d <= length (vsub p c).
Proof.
  split; [apply accept_true_far|].
  intros H. unfold accept. apply orb_true_iff. right.
  apply negb_true_iff. now apply too_close_false_iff.
Qed.

(** X2: acceptance only gets harder: a candidate accepted against a
    registry at some minimum distance is accepted against every earlier
    (shorter) state of the registry and at every smaller minimum distance. *)
Theorem accept_antitone (cs more : list Vector) (p : Vector) (d d' : R)
  (Hd : d' <= d) (Hacc : accept (cs ++ more) p d = true) :
  accept cs p d' = true.
Proof.
  apply accept_true_iff. intros c Hc.
  rewrite accept_true_iff in Hacc.
  specialize (Hacc c (in_or_app _ _ _ (or_introl Hc))). lra.
Qed.

Lemma length_axis x : 0 <= x -> length (mkVector x 0 0) = x.
Proof.
  intros Hx. unfold length. simpl.
  replace (x * x + 0 * 0 + 0 * 0) with (x * x) by ring.
  now apply sqrt_square.
Qed.

Lemma accept_antitone_witness :
  accept [mkVector 0 0 0] (mkVector 5 0 0) 2 = true.
Proof.
  apply (accept_antitone [mkVector 0 0 0] [mkVector 10 0 0]
                         (mkVector 5 0 0) 2.5 2); [lra|].
  apply accept_true_iff. intros c [<-|[<-|[]]]; unfold vsub; simpl.
  - replace (5 - 0) with 5 by ring. replace (0 - 0) with 0 by ring.
    rewrite length_axis; lra.
  - unfold length. simpl.
    replace ((5 - 10) * (5 - 10) + (0 - 0) * (0 - 0) + (0 - 0) * (0 - 0))
      with (5 * 5) by ring.
    rewrite sqrt_square; lra.
Defined.

(** ** No two cells in one place *)

Lemma length_vsub_sym p q : length (vsub p q) = length (vsub q p).
Proof. unfold length, vsub. simpl. f_equal. ring. Qed.

Lemma length_vsub_self p : length (vsub p p) = 0.
Proof.
  unfold length, vsub. simpl.
  replace ((vx p - vx p) * (vx p - vx p) + (vy p - vy p) * (vy p - vy p)
           + (vz p - vz p) * (vz p - vz p)) with 0 by ring.
  apply sqrt_0.
Qed.

Lemma cells_loop_separated rng segs st :
  registry_separated st -> registry_separated (snd (cells_loop rng segs st)).
Proof.
  apply (cells_loop_lift rng
           (fun a b => registry_separated a -> registry_separated b));
    [auto | auto |].
  intros s g _ _ st'. apply seed_once_separated.
Qed.

(** X3: if the registry is separated when [create_cells] starts, then when
    it returns any two entries at different positions of the registry are
    at least [2.5 * C_RADIUS] apart, whichever was placed first; so the
    registry never holds the same point twice. *)
Theorem registry_no_duplicates (rng : nat -> R) (st : State)
  (Hsep : registry_separated st) :
  let st' := snd (create_cells rng st) in
  (forall i j q p, i <> j ->
     nth_error (cell_centers st') i = Some q ->
     nth_error (cell_centers st') j = Some p ->
     2.5 * C_RADIUS <= length (vsub p q)) /\
  NoDup (cell_centers st').
Proof.
  intros st'.
  destruct (cells_loop_separated rng DSEG st Hsep) as [Hreg Hs].
  fold (create_cells rng) in Hreg, Hs. fold st' in Hreg, Hs.
  assert (Hfar : forall i j q p, i <> j ->
     nth_error (cell_centers st') i = Some q ->
     nth_error (cell_centers st') j = Some p ->
     2.5 * C_RADIUS <= length (vsub p q)).
  { intros i j q p Hij Hi Hj. rewrite Hreg in Hi, Hj.
    destruct (Nat.lt_total i j) as [Hlt|[Heq|Hgt]]; [|contradiction|].
    - exact (separated_floor _ Hs i j q p Hlt Hi Hj).
    - rewrite length_vsub_sym.
      exact (separated_floor _ Hs j i p q Hgt Hj Hi). }
  split; [exact Hfar|].
  apply NoDup_nth_error. intros i j Hi Heq.
  destruct (Nat.eq_dec i j) as [|Hne]; [assumption|exfalso].
  destruct (nth_error (cell_centers st') i) as [q|] eqn:Ei;
    [|apply nth_error_None in Ei; lia].
  pose proof (Hfar i j q q Hne Ei (eq_sym Heq)) as H.
  rewrite length_vsub_self in H. unfold C_RADIUS in H. lra.
Qed.

Lemma init_state_separated : registry_separated init_state.
Proof.
  split; [reflexivity|]. intros i j q tq p tp _ Hi. destruct i; discriminate.
Qed.

Lemma registry_no_duplicates_witness :
  NoDup (cell_centers (snd (create_cells (fun _ => 0) init_state))).
Proof.
  apply (registry_no_duplicates (fun _ => 0) init_state init_state_separated).
Defined.

(** ** A seed takes the first candidate that fits *)

Lemma retry_first_fit rng s g n :
  forall i j st a,
    (i < n)%nat ->
    (forall i', (i' < i)%nat ->
       exists a',
         candidate_at rng s g (rpos st + draws_per (ctype s) * i') = Ok a' /\
         accept (cell_centers st) (attempt_point a') (min_dist (ctype s))
         = false) ->
    candidate_at rng s g (rpos st + draws_per (ctype s) * i) = Ok a ->
    accept (cell_centers st) (attempt_point a) (min_dist (ctype s)) = true ->
    exists evs,
      retry rng n j s g st =
      (Ok (Some ((j + Z.of_nat i)%Z, attempt_point a)),
       mkState (cell_centers st) (draws_per (ctype s) * S i + rpos st)
               (cells st) (stdout st) (trace st ++ evs)) /\
      List.length evs = S i.
Proof.
  induction n as [|n IH]; intros i j st a Hi Hrej Ha Hacc; [lia|].
  rewrite retry_S. destruct i as [|i].
  - rewrite Nat.mul_0_r, Nat.add_0_r in Ha. rewrite Ha. cbv zeta.
    rewrite Hacc. exists [mkEvent s a true]. split; [|reflexivity].
    simpl Z.of_nat. rewrite Z.add_0_r, Nat.mul_1_r. reflexivity.
  - destruct (Hrej 0%nat ltac:(lia)) as (a0 & Ha0 & Hacc0).
    rewrite Nat.mul_0_r, Nat.add_0_r in Ha0. rewrite Ha0. cbv zeta.
    rewrite Hacc0.
    match goal with |- context [retry rng n ?j' s g ?st1] =>
      destruct (IH i j' st1 a) as (evs & Heq & Hlen) end.
    + lia.
    + intros i' Hi'. simpl.
      destruct (Hrej (S i') ltac:(lia)) as (a' & Ha' & Hacc').
      exists a'. split; [|assumption]. rewrite <- Ha'. f_equal. lia.
    + simpl. rewrite <- Ha. f_equal. lia.
    + exact Hacc.
    + exists (mkEvent s a0 false :: evs). rewrite Heq. simpl.
      split; [|now rewrite Hlen].
      f_equal; [do 3 f_equal; lia|].
      f_equal; [lia|]. now rewrite <- app_assoc.
Qed.

(** X4: if the candidate of attempt [i] (counted from 0) passes the guard
    and all earlier candidates of the seed index fail it, the pass appends
    exactly that candidate to the registry, creates one cell located there,
    consumes the draws of [i + 1] attempts plus one for the scale, and
    prints [i] only if [i > 5000]. *)
Theorem seed_takes_first_fit (rng : nat -> R) (s : cDseg) (g : SegGeom)
  (st : State) (i : nat) (a : Attempt)
  (Hi : (i < RETRIES)%nat)
  (Hrej : forall i', (i' < i)%nat ->
     exists a',
       candidate_at rng s g (rpos st + draws_per (ctype s) * i') = Ok a' /\
       accept (cell_centers st) (attempt_point a') (min_dist (ctype s))
       = false)
  (Ha : candidate_at rng s g (rpos st + draws_per (ctype s) * i) = Ok a)
  (Hacc : accept (cell_centers st) (attempt_point a) (min_dist (ctype s))
          = true) :
  let out := seed_once rng s g st in
  fst out = Ok tt /\
  cell_centers (snd out) = cell_centers st ++ [attempt_point a] /\
  (exists c, cells (snd out) = cells st ++ [c] /\
             cell_location c = attempt_point a) /\
  rpos (snd out) = (rpos st + draws_per (ctype s) * (i + 1) + 1)%nat /\
  stdout (snd out)
  = (if (5000 <? Z.of_nat i)%Z then stdout st ++ [Z.of_nat i]
     else stdout st).
Proof.
  destruct (retry_first_fit rng s g RETRIES i 0%Z st a Hi Hrej Ha Hacc)
    as (evs & Heq & _).
  cbv zeta. rewrite seed_once_eq, Heq. cbv zeta. simpl.
  repeat split.
  - eexists. split; reflexivity.
  - lia.
Qed.

Lemma first_fit_on_empty rng s g st :
  good s g -> cell_centers st = [] ->
  exists a,
    candidate_at rng s g (rpos st) = Ok a /\
    cell_centers (snd (seed_once rng s g st)) = [attempt_point a].
Proof.
  intros Hgood Hempty.
  destruct (good_candidate rng s g (rpos st) Hgood) as [a Ha].
  exists a. split; [assumption|].
  destruct RETRIES_pos as [n Hn].
  destruct (retry_first_fit rng s g RETRIES 0 0%Z st a) as (evs & Heq & _).
  - lia.
  - intros i' Hi'. lia.
  - now rewrite Nat.mul_0_r, Nat.add_0_r.
  - now rewrite Hempty.
  - rewrite seed_once_eq, Heq. simpl. now rewrite Hempty.
Qed.

Lemma seed_takes_first_fit_witness :
  exists p,
    cell_centers
      (snd (seed_once (fun _ => 0) (mkDseg 4 5 acinar)
                      (mkGeom (mkVector 0.0 0.0 52.0) 45.0 52.0
                              (0.7 + C_OFFSET) (0.05 + C_OFFSET))
                      init_state))
    = [] ++ [p].
Proof.
  eexists.
  eapply (seed_takes_first_fit (fun _ => 0) (mkDseg 4 5 acinar) _
                               init_state 0).
  - unfold RETRIES. lia.
  - intros i' Hi'. lia.
  - apply stuck_candidate.
  - reflexivity.
Defined.

(** The state after the first seed of the first segment is related to the
    final state of the run by every relation the seed step keeps. *)
Lemma run_after_first_seed rng (Rel : State -> State -> Prop) :
  (forall st, Rel st st) ->
  (forall a b c, Rel a b -> Rel b c -> Rel a c) ->
  (forall s g st, Rel st (snd (seed_once rng s g st))) ->
  Rel (snd (seed_once rng (mkDseg 0 1 striated)
                      (mkGeom (mkVector 0.0 0.0 10.0) 0.0 10.0
                              (4.0 + C_OFFSET) (3.7 + C_OFFSET))
                      init_state))
      (snd (create_cells rng init_state)).
Proof.
  intros Hrefl Htrans Hstep.
  set (s := mkDseg 0 1 striated).
  set (g := mkGeom (mkVector 0.0 0.0 10.0) 0.0 10.0
                   (4.0 + C_OFFSET) (3.7 + C_OFFSET)).
  unfold create_cells, DSEG. fold s. rewrite cells_loop_cons.
  rewrite create_seg_cells_eq.
  change (seg_geom s) with (Ok g). unfold SEEDS. rewrite seeds_S.
  destruct (seed_once rng s g init_state) as [[u|e] st1]; [|apply Hrefl].
  pose proof (seeds_lift rng Rel Hrefl Htrans s g (Hstep s g) 49 st1) as H1.
  destruct (seeds rng 49 s g st1) as [[u'|e] st2]; [|exact H1].
  eapply Htrans; [exact H1|].
  apply (cells_loop_lift rng Rel Hrefl Htrans).
  intros s' g' _ _ st'. apply Hstep.
Qed.

(** X5: a run of [create_cells] that starts on the empty registry always
    places at least one cell: the very first candidate of the outlet
    segment is accepted, whatever the random stream, and stays first in the
    registry. *)
Theorem first_candidate_always_placed (rng : nat -> R) :
  exists a,
    candidate_at rng (mkDseg 0 1 striated)
                 (mkGeom (mkVector 0.0 0.0 10.0) 0.0 10.0
                         (4.0 + C_OFFSET) (3.7 + C_OFFSET)) 0 = Ok a /\
    nth_error (cell_centers (snd (create_cells rng init_state))) 0
    = Some (attempt_point a).
Proof.
  set (s := mkDseg 0 1 striated).
  set (g := mkGeom (mkVector 0.0 0.0 10.0) 0.0 10.0
                   (4.0 + C_OFFSET) (3.7 + C_OFFSET)).
  assert (Hgood : good s g) by (right; unfold g_z12; simpl; lra).
  destruct (first_fit_on_empty rng s g init_state Hgood eq_refl)
    as (a & Ha & Hcc).
  exists a. split; [exact Ha|].
  destruct (run_after_first_seed rng extends extends_refl extends_trans
              (seed_once_extends rng)) as [added Hadd].
  fold s g in Hadd. rewrite Hadd, Hcc. reflexivity.
Qed.

(** ** The scene follows the registry *)

Lemma appended_refl {A} (proj : State -> list A) P st : appended proj P st st.
Proof. exists []. now rewrite app_nil_r. Qed.

Lemma appended_trans {A} (proj : State -> list A) P a b c :
  appended proj P a b -> appended proj P b c -> appended proj P a c.
Proof.
  intros (x & Hx & Px) (y & Hy & Py). exists (x ++ y).
  split; [now rewrite Hy, Hx, app_assoc|]. apply Forall_app. now split.
Qed.

Lemma seed_once_cells_at_centers rng s g st :
  cells_at_centers st -> cells_at_centers (snd (seed_once rng s g st)).
Proof.
  unfold cells_at_centers. intros H. rewrite seed_once_eq.
  pose proof (retry_spec rng s g RETRIES 0%Z st) as Hr. cbv zeta in Hr.
  destruct (retry rng RETRIES 0%Z s g st) as [[[[j p]|]|e] st'];
    simpl in Hr |- *; destruct Hr as (Hcc & Hce & _);
    rewrite ?map_app, Hcc, Hce, H; reflexivity.
Qed.

(** X6: if the scene holds one cell per registered center, located at that
    center and in the same order, it still does after any call of
    [create_seg_cells] and after [create_cells]. *)
Theorem cells_follow_registry (rng : nat -> R) (st : State)
  (H : cells_at_centers st) :
  (forall s, cells_at_centers (snd (create_seg_cells rng s st))) /\
  cells_at_centers (snd (create_cells rng st)).
Proof.
  split.
  - intros s. revert H.
    apply (create_seg_cells_lift rng
             (fun a b => cells_at_centers a -> cells_at_centers b));
      [auto | auto |].
    intros g _ st'. apply seed_once_cells_at_centers.
  - revert H.
    apply (cells_loop_lift rng
             (fun a b => cells_at_centers a -> cells_at_centers b));
      [auto | auto |].
    intros s g _ _ st'. apply seed_once_cells_at_centers.
Qed.

Lemma cells_follow_registry_witness :
  cells_at_centers (snd (create_cells (fun _ => 0) init_state)).
Proof.
  apply (cells_follow_registry (fun _ => 0) init_state eq_refl).
Defined.

Lemma seed_once_cell_of_type rng s g st :
  unit_draws rng ->
  appended cells (cell_of_type (ctype s)) st (snd (seed_once rng s g st)).
Proof.
  intros Hu. rewrite seed_once_eq.
  pose proof (retry_spec rng s g RETRIES 0%Z st) as Hr. cbv zeta in Hr.
  destruct (retry rng RETRIES 0%Z s g st) as [[[[j p]|]|e] st'];
    simpl in Hr |- *; destruct Hr as (_ & Hce & _);
    try (exists []; rewrite app_nil_r; split; [assumption|constructor]).
  eexists. split; [simpl; rewrite Hce; reflexivity|].
  constructor; [|constructor].
  unfold cell_of_type. simpl. repeat split.
  eexists. split; [reflexivity|].
  pose proof (Hu (rpos st')) as Hk.
  destruct (ctype s); lra.
Qed.

(** X7: with unit draws, every cell that [create_seg_cells] adds for a
    segment carries the colour, pressure and stiffness of the segment's
    entry in [cell_types] and is scaled by one factor on all three axes,
    drawn from [0.90, 0.99] for acinar and from [0.9, 1.1] for duct
    segments. *)
Theorem new_cells_configured (rng : nat -> R) (Hu : unit_draws rng)
  (s : cDseg) (st : State) :
  exists new,
    cells (snd (create_seg_cells rng s st)) = cells st ++ new /\
    Forall (cell_of_type (ctype s)) new.
Proof.
  apply (create_seg_cells_lift rng (appended cells (cell_of_type (ctype s)))
           (appended_refl _ _) (appended_trans _ _)).
  intros g _ st'. now apply seed_once_cell_of_type.
Qed.

Lemma new_cells_configured_witness :
  exists new,
    cells (snd (create_seg_cells (fun _ => 0) (mkDseg 4 5 acinar) init_state))
    = new /\
    Forall (cell_of_type acinar) new.
Proof.
  apply (new_cells_configured (fun _ => 0) zero_draws_unit
                              (mkDseg 4 5 acinar) init_state).
Defined.

(** ** Diagnostic output *)

Lemma prints_of_app x :
  forall c y,
    prints_of c (x ++ y) = prints_of c x ++ prints_of (index_after c x) y.
Proof.
  induction x as [|e x IH]; intros c y; [reflexivity|].
  simpl. rewrite IH, app_assoc. reflexivity.
Qed.

Lemma index_after_app c x y :
  index_after c (x ++ y) = index_after (index_after c x) y.
Proof. unfold index_after. apply fold_left_app. Qed.

Lemma prints_of_cons c e x :
  prints_of c (e :: x)
  = (if ev_accepted e && (5000 <? Z.of_nat c)%Z then [Z.of_nat c] else [])
    ++ prints_of (next_index c e) x.
Proof. reflexivity. Qed.

Lemma index_after_cons c e x :
  index_after c (e :: x) = index_after (next_index c e) x.
Proof. reflexivity. Qed.

Lemma next_index_rejected c e :
  rejected e ->
  next_index c e = (if Nat.eqb (S c) RETRIES then 0 else S c)%nat.
Proof. unfold rejected, next_index. now intros ->. Qed.

(** A stretch of rejected attempts inside one retry loop prints nothing. *)
Lemma rejected_below x :
  forall c,
    Forall rejected x -> (c + List.length x < RETRIES)%nat ->
    prints_of c x = [] /\ index_after c x = (c + List.length x)%nat.
Proof.
  induction x as [|e x IH]; intros c Hrej Hlen.
  - split; [reflexivity|]. unfold index_after.
    cbn [fold_left List.length]. lia.
  - inversion Hrej as [|? ? He Hx]; subst.
    change (List.length (e :: x)) with (S (List.length x)) in *.
    rewrite prints_of_cons, index_after_cons, (next_index_rejected c e He).
    unfold rejected in He. rewrite He. cbn [andb app].
    rewrite (proj2 (Nat.eqb_neq (S c) RETRIES) ltac:(lia)).
    destruct (IH (S c) Hx ltac:(lia)) as [Hp Hi].
    rewrite Hp, Hi. split; [reflexivity|lia].
Qed.

Lemma exhausted_prints x :
  Forall rejected x -> List.length x = RETRIES ->
  prints_of 0 x = [] /\ index_after 0 x = 0%nat.
Proof.
  intros Hrej Hlen. destruct RETRIES_pos as [n Hn].
  destruct (exists_last (l := x)) as (x0 & e & ->).
  { intros ->. cbn [List.length] in Hlen. lia. }
  apply Forall_app in Hrej. destruct Hrej as [Hrej0 Hreje].
  inversion Hreje as [|? ? He _]; subst.
  rewrite length_app in Hlen. cbn [List.length] in Hlen.
  destruct (rejected_below x0 0%nat Hrej0 ltac:(lia)) as [Hp Hi].
  rewrite prints_of_app, index_after_app, Hp, Hi.
  rewrite prints_of_cons, index_after_cons, (next_index_rejected _ e He).
  unfold rejected in He. rewrite He. cbn [andb app Nat.add].
  rewrite (proj2 (Nat.eqb_eq (S (List.length x0)) RETRIES) ltac:(lia)).
  split; reflexivity.
Qed.

Lemma accepted_prints x s a :
  Forall rejected x -> (List.length x < RETRIES)%nat ->
  prints_of 0 (x ++ [mkEvent s a true])
  = (if (5000 <? Z.of_nat (List.length x))%Z
     then [Z.of_nat (List.length x)] else []) /\
  index_after 0 (x ++ [mkEvent s a true]) = 0%nat.
Proof.
  intros Hrej Hlen.
  destruct (rejected_below x 0%nat Hrej ltac:(lia)) as [Hp Hi].
  rewrite prints_of_app, index_after_app, Hp, Hi.
  rewrite prints_of_cons, index_after_cons.
  cbn [ev_accepted andb Nat.add app].
  split; [|reflexivity].
  destruct (5000 <? Z.of_nat (List.length x))%Z; reflexivity.
Qed.

(** The shape of the events of one retry loop on a segment whose geometry
    is well defined. *)
Lemma retry_shape rng s g n :
  good s g ->
  forall j st,
    let out := retry rng n j s g st in
    exists evs,
      trace (snd out) = trace st ++ evs /\
      match fst out with
      | Ok (Some (j', p)) =>
          exists evs0 a,
            evs = evs0 ++ [mkEvent s a true] /\ Forall rejected evs0 /\
            (List.length evs0 < n)%nat /\
            j' = (j + Z.of_nat (List.length evs0))%Z
      | Ok None => Forall rejected evs /\ List.length evs = n
      | Raise _ => False
      end.
Proof.
  intros Hgood. induction n as [|n IH]; intros j st.
  - exists []. simpl. rewrite app_nil_r. repeat split. constructor.
  - cbv zeta. rewrite retry_S.
    destruct (good_candidate rng s g (rpos st) Hgood) as [a ->]. cbv zeta.
    destruct (accept _ _ _).
    + exists [mkEvent s a true]. simpl. split; [reflexivity|].
      exists [], a. simpl. repeat split; [constructor|lia|lia].
    + match goal with |- context [retry rng n ?j' s g ?st1] =>
        specialize (IH j' st1); cbv zeta in IH;
        destruct (retry rng n j' s g st1) as [r st'] end.
      simpl in IH |- *. destruct IH as (evs & Htr & Hres).
      exists (mkEvent s a false :: evs).
      split; [rewrite Htr, <- app_assoc; reflexivity|].
      destruct r as [[[j' p]|]|e].
      * destruct Hres as (evs0 & a' & -> & Hrej & Hlen & ->).
        exists (mkEvent s a false :: evs0), a'. simpl.
        repeat split; [now constructor|lia|lia].
      * destruct Hres as [Hrej Hlen]. split; [now constructor|].
        simpl. now rewrite Hlen.
      * contradiction.
Qed.

Lemma printed_refl st : printed st st.
Proof. exists []. simpl. now rewrite !app_nil_r. Qed.

Lemma printed_trans a b c : printed a b -> printed b c -> printed a c.
Proof.
  intros (x & Hx & Ix & Px) (y & Hy & Iy & Py). exists (x ++ y).
  split; [now rewrite Hy, Hx, app_assoc|]. split.
  - now rewrite index_after_app, Ix.
  - now rewrite Py, Px, prints_of_app, Ix, app_assoc.
Qed.

Lemma seed_once_printed rng s g st :
  good s g -> printed st (snd (seed_once rng s g st)).
Proof.
  intros Hgood. rewrite seed_once_eq.
  pose proof (retry_shape rng s g RETRIES Hgood 0%Z st) as Hsh.
  pose proof (retry_spec rng s g RETRIES 0%Z st) as Hr.
  cbv zeta in Hsh, Hr.
  destruct (retry rng RETRIES 0%Z s g st) as [[[[j p]|]|e] st'];
    cbn [fst snd] in Hsh, Hr |- *;
    destruct Hsh as (evs & Htr & Hres);
    destruct Hr as (_ & _ & Hso & _); [| |contradiction].
  - destruct Hres as (evs0 & a & -> & Hrej & Hlen & ->).
    destruct (accepted_prints evs0 s a Hrej Hlen) as [Hp Hi].
    exists (evs0 ++ [mkEvent s a true]). cbn [trace stdout].
    split; [exact Htr|]. split; [exact Hi|].
    rewrite Hp, Hso. simpl Z.add.
    destruct (5000 <? Z.of_nat (List.length evs0))%Z;
      [reflexivity|now rewrite app_nil_r].
  - destruct Hres as [Hrej Hlen].
    destruct (exhausted_prints evs Hrej Hlen) as [Hp Hi].
    exists evs. split; [exact Htr|]. split; [exact Hi|].
    now rewrite Hp, app_nil_r.
Qed.

Lemma next_index_below c e :
  (c < RETRIES)%nat -> (next_index c e < RETRIES)%nat.
Proof.
  intros Hc. unfold next_index.
  destruct (ev_accepted e); [lia|].
  destruct (Nat.eqb_spec (S c) RETRIES); lia.
Qed.

Lemma prints_of_facts evs :
  forall c,
    (c < RETRIES)%nat ->
    Forall (fun j => (5000 < j < 10000)%Z) (prints_of c evs) /\
    (List.length (prints_of c evs)
     <= List.length (filter ev_accepted evs))%nat.
Proof.
  induction evs as [|e evs IH]; intros c Hc.
  - split; [constructor|]. cbn [prints_of filter List.length]. lia.
  - destruct (IH (next_index c e) (next_index_below c e Hc)) as [Hr Hl].
    rewrite prints_of_cons. cbn [filter].
    destruct (ev_accepted e); cbn [andb].
    + destruct (5000 <? Z.of_nat c)%Z eqn:E; cbn [app List.length].
      * split; [|lia]. constructor; [|exact Hr].
        apply Z.ltb_lt in E. unfold RETRIES in Hc. lia.
      * split; [exact Hr|lia].
    + cbn [app]. split; [exact Hr|exact Hl].
Qed.

(** X8: what [create_cells] prints is read off its candidate attempts:
    the output grows by the retry-loop index of each accepted attempt whose
    index is above 5000, in order, and by nothing else; a rejected attempt
    and a seed that ran out of retries print nothing. So every number
    printed lies strictly between 5000 and 10000, and no more numbers are
    printed than candidates were accepted. *)
Theorem prints_only_late_successes (rng : nat -> R) (st : State) :
  exists evs,
    trace (snd (create_cells rng st)) = trace st ++ evs /\
    stdout (snd (create_cells rng st)) = stdout st ++ prints_of 0 evs /\
    Forall (fun j => (5000 < j < 10000)%Z) (prints_of 0 evs) /\
    (List.length (prints_of 0 evs)
     <= List.length (filter ev_accepted evs))%nat.
Proof.
  destruct (cells_loop_lift rng printed printed_refl printed_trans DSEG)
    with (st := st) as (evs & Htr & _ & Hout).
  - intros s g Hs Hg st0.
    destruct (seg_geom_DSEG s Hs) as (g' & Hg' & _ & _ & _ & Hgood).
    rewrite Hg in Hg'. injection Hg' as <-.
    now apply seed_once_printed.
  - exists evs. split; [exact Htr|]. split; [exact Hout|].
    apply prints_of_facts. unfold RETRIES. lia.
Qed.

(** ** Cost of a run *)

Lemma retry_cost rng s g n :
  forall j st,
    (List.length (trace (snd (retry rng n j s g st)))
     <= List.length (trace st) + n)%nat /\
    (rpos (snd (retry rng n j s g st))
     <= rpos st + draws_per (ctype s) * n)%nat.
Proof.
  induction n as [|n IH]; intros j st; [simpl; lia|].
  rewrite retry_S.
  destruct (candidate_at rng s g (rpos st)) as [a|e]; [|simpl; lia].
  cbv zeta. destruct (accept _ _ _).
  - simpl. rewrite length_app. simpl. lia.
  - match goal with |- context [retry rng n ?j' s g ?st1] =>
      specialize (IH j' st1) end.
    simpl in IH. rewrite length_app in IH. simpl in IH. lia.
Qed.

(** A quantity that one seed raises by at most [b] is raised by at most
    [b] per seed by the loops. *)
Section Bounded.

Variable rng : nat -> R.
Variable mu : State -> nat.
Variable b : nat.
Hypothesis seed_bound :
  forall s g st, (mu (snd (seed_once rng s g st)) <= mu st + b)%nat.

Lemma seeds_bounded s g n :
  forall st, (mu (snd (seeds rng n s g st)) <= mu st + n * b)%nat.
Proof.
  induction n as [|n IH]; intros st; [simpl; lia|].
  rewrite seeds_S. pose proof (seed_bound s g st) as H.
  destruct (seed_once rng s g st) as [[u|e] st']; simpl in H |- *.
  - specialize (IH st'). lia.
  - lia.
Qed.

Lemma create_seg_cells_bounded s st :
  (mu (snd (create_seg_cells rng s st)) <= mu st + SEEDS * b)%nat.
Proof.
  rewrite create_seg_cells_eq.
  destruct (seg_geom s); [apply seeds_bounded|simpl; lia].
Qed.

Lemma cells_loop_bounded segs :
  forall st,
    (mu (snd (cells_loop rng segs st))
     <= mu st + List.length segs * (SEEDS * b))%nat.
Proof.
  induction segs as [|s rest IH]; intros st; [simpl; lia|].
  rewrite cells_loop_cons.
  pose proof (create_seg_cells_bounded s st) as H.
  change (List.length (s :: rest)) with (S (List.length rest)).
  rewrite Nat.mul_succ_l.
  set (X := (SEEDS * b)%nat) in *.
  destruct (create_seg_cells rng s st) as [[u|e] st'];
    cbn [fst snd] in H |- *.
  - specialize (IH st'). lia.
  - lia.
Qed.

End Bounded.

Lemma seed_once_cost rng s g st :
  let st' := snd (seed_once rng s g st) in
  (List.length (trace st') <= List.length (trace st) + RETRIES)%nat /\
  (rpos st' <= rpos st + (3 * RETRIES + 1))%nat /\
  (List.length (cells st') <= List.length (cells st) + 1)%nat.
Proof.
  cbv zeta. rewrite seed_once_eq.
  pose proof (retry_cost rng s g RETRIES 0%Z st) as [Ht Hp].
  pose proof (retry_spec rng s g RETRIES 0%Z st) as Hr. cbv zeta in Hr.
  assert (Hd : (draws_per (ctype s) <= 3)%nat)
    by (destruct (ctype s); simpl; lia).
  assert (Hm : (draws_per (ctype s) * RETRIES <= 3 * RETRIES)%nat)
    by (apply Nat.mul_le_mono_r; exact Hd).
  destruct (retry rng RETRIES 0%Z s g st) as [[[[j p]|]|e] st'];
    cbn [fst snd cell_centers rpos cells stdout trace] in Ht, Hp, Hr |- *;
    destruct Hr as (_ & Hce & _);
    rewrite ?length_app, Hce; cbn [List.length]; lia.
Qed.

(** X9: one run of [create_cells] tries at most 5 x 50 x 10000 candidates,
    makes at most 5 x 50 x 30001 calls of [random.uniform], and adds at
    most 250 centers and 250 cells. *)
Theorem run_cost (rng : nat -> R) (st : State) :
  let st' := snd (create_cells rng st) in
  Z.of_nat RETRIES = 10000%Z /\
  (List.length (trace st')
   <= List.length (trace st) + 5 * (50 * RETRIES))%nat /\
  (rpos st' <= rpos st + 5 * (50 * (3 * RETRIES + 1)))%nat /\
  (List.length (cell_centers st') <= List.length (cell_centers st) + 250)%nat /\
  (List.length (cells st') <= List.length (cells st) + 250)%nat.
Proof.
  cbv zeta. split; [unfold RETRIES; lia|].
  split; [|split; [|split]].
  - apply (cells_loop_bounded rng (fun x => List.length (trace x)) RETRIES).
    intros s g st0. apply seed_once_cost.
  - apply (cells_loop_bounded rng rpos (3 * RETRIES + 1)).
    intros s g st0. apply seed_once_cost.
  - apply (cells_loop_bounded rng (fun x => List.length (cell_centers x)) 1).
    intros s g st0.
    destruct (seed_once_registry rng s g st0) as [H|[p H]]; rewrite H;
      [|rewrite length_app; simpl]; lia.
  - apply (cells_loop_bounded rng (fun x => List.length (cells x)) 1).
    intros s g st0. apply seed_once_cost.
Qed.

(** ** Exceptions *)

Lemma PTS_at_out_of_range i :
  (List.length PTS <= i)%nat -> PTS_at i = Raise IndexError.
Proof.
  intros H. unfold PTS_at.
  now rewrite (proj2 (nth_error_None PTS i) H).
Qed.

Lemma PTS_at_in_range i :
  (i < List.length PTS)%nat -> exists p, PTS_at i = Ok p.
Proof.
  intros H. unfold PTS_at.
  destruct (nth_error PTS i) eqn:E; [eauto|].
  apply nth_error_None in E. lia.
Qed.

Lemma seg_geom_out_of_range s :
  (List.length PTS <= idx_out s)%nat \/ (List.length PTS <= idx_in s)%nat ->
  seg_geom s = Raise IndexError.
Proof.
  intros H. unfold seg_geom.
  destruct (Nat.le_gt_cases (List.length PTS) (idx_out s)) as [Ho|Ho].
  - now rewrite (PTS_at_out_of_range _ Ho).
  - destruct (PTS_at_in_range _ Ho) as [po ->].
    destruct H as [H|H]; [lia|]. now rewrite (PTS_at_out_of_range _ H).
Qed.

(** X10: a segment whose [idx_out] or [idx_in] is 6 or more (beyond the
    six-entry table) makes [create_seg_cells] raise [IndexError] at the
    table lookups of lines 168-171: no value has been drawn, and the
    registry, the cells, the output and the trace are as before. The loop
    of [create_cells] stops at that segment with the same components
    unchanged, and the loop of [create_duct] raises [IndexError] at it
    too. *)
Theorem bad_index_raises (rng : nat -> R) (s : cDseg) (st : State)
  (H : (List.length PTS <= idx_out s)%nat \/
       (List.length PTS <= idx_in s)%nat) :
  List.length PTS = 6%nat /\
  (let out := create_seg_cells rng s st in
   fst out = Raise IndexError /\
   rpos (snd out) = rpos st /\
   cell_centers (snd out) = cell_centers st /\
   cells (snd out) = cells st /\
   stdout (snd out) = stdout st /\
   trace (snd out) = trace st) /\
  (forall rest,
      let out := cells_loop rng (s :: rest) st in
      fst out = Raise IndexError /\
      rpos (snd out) = rpos st /\
      cell_centers (snd out) = cell_centers st /\
      cells (snd out) = cells st /\
      stdout (snd out) = stdout st /\
      trace (snd out) = trace st) /\
  (forall offset prev rest,
      duct_loop offset prev (s :: rest) = Raise IndexError).
Proof.
  assert (Hc : create_seg_cells rng s st = (Raise IndexError, st))
    by (rewrite create_seg_cells_eq, (seg_geom_out_of_range s H);
        reflexivity).
  split; [reflexivity|]. split; [|split].
  - cbv zeta. rewrite Hc. repeat split.
  - intros rest. cbv zeta. rewrite cells_loop_cons, Hc. repeat split.
  - intros offset prev rest. cbn [duct_loop]. unfold duct_step.
    destruct (Nat.le_gt_cases (List.length PTS) (idx_out s)) as [Ho|Ho].
    + now rewrite (PTS_at_out_of_range _ Ho).
    + destruct (PTS_at_in_range _ Ho) as [po ->].
      destruct H as [H|H]; [lia|]. now rewrite (PTS_at_out_of_range _ H).
Qed.

Lemma bad_index_raises_witness :
  fst (create_seg_cells (fun _ => 0) (mkDseg 4 6 acinar) init_state)
  = Raise IndexError /\
  duct_loop 0 None [mkDseg 4 6 acinar] = Raise IndexError.
Proof.
  destruct (bad_index_raises (fun _ => 0) (mkDseg 4 6 acinar) init_state)
    as (_ & (Hr & _) & _ & Hd).
  - right. simpl. lia.
  - split; [exact Hr|apply Hd].
Defined.

Lemma flat_candidate rng s g k :
  ctype s <> acinar -> g_z1 g = g_z2 g ->
  candidate_at rng s g k = Raise ZeroDivisionError.
Proof.
  intros Ht Hz.
  unfold candidate_at, gen_try, duct_try, bind, uniform, ret, raise.
  assert (Hz0 : g_z12 g = 0) by (unfold g_z12; lra).
  destruct (ctype s); [contradiction| |]; simpl;
    destruct (Req_dec_T (g_z12 g) 0); try contradiction; reflexivity.
Qed.

(** X11: on an intercalated or striated segment whose two endpoints have
    the same height, [create_seg_cells] raises [ZeroDivisionError] in its
    first attempt: three values have been drawn by then, and no center, no
    cell, no output and no candidate has been recorded. *)
Theorem flat_duct_segment_raises (rng : nat -> R) (s : cDseg) (g : SegGeom)
  (st : State)
  (Hg : seg_geom s = Ok g) (Ht : ctype s <> acinar)
  (Hz : g_z1 g = g_z2 g) :
  let out := create_seg_cells rng s st in
  fst out = Raise ZeroDivisionError /\
  rpos (snd out) = (rpos st + 3)%nat /\
  cell_centers (snd out) = cell_centers st /\
  cells (snd out) = cells st /\
  stdout (snd out) = stdout st /\
  trace (snd out) = trace st.
Proof.
  cbv zeta. rewrite create_seg_cells_eq, Hg. unfold SEEDS.
  rewrite seeds_S, seed_once_eq.
  destruct RETRIES_pos as [n ->].
  rewrite retry_S, (flat_candidate rng s g _ Ht Hz).
  assert (Hd : draws_per (ctype s) = 3%nat)
    by (destruct (ctype s); [contradiction|reflexivity|reflexivity]).
  rewrite Hd. cbn [fst snd advance cell_centers rpos cells stdout trace].
  repeat split. lia.
Qed.

Lemma flat_duct_segment_raises_witness :
  fst (create_seg_cells (fun _ => 0) (mkDseg 2 2 striated) init_state)
  = Raise ZeroDivisionError.
Proof.
  apply (flat_duct_segment_raises (fun _ => 0) (mkDseg 2 2 striated)
           (mkGeom (mkVector 0.0 0.0 20.0) 20.0 20.0
                   (1.5 + C_OFFSET) (1.5 + C_OFFSET)) init_state);
    [reflexivity | discriminate | reflexivity].
Defined.

(** X12: an acinar segment with valid endpoint indices never raises, even
    when its two endpoints coincide: the acinar branch does not divide by
    the height difference. *)
Theorem acinar_segment_never_raises (rng : nat -> R) (s : cDseg) (st : State)
  (Ht : ctype s = acinar)
  (Ho : (idx_out s < List.length PTS)%nat)
  (Hi : (idx_in s < List.length PTS)%nat) :
  fst (create_seg_cells rng s st) = Ok tt.
Proof.
  destruct (PTS_at_in_range _ Ho) as [po Hpo].
  destruct (PTS_at_in_range _ Hi) as [pi Hpi].
  rewrite create_seg_cells_eq. unfold seg_geom. rewrite Hpo, Hpi.
  apply seeds_ok. now left.
Qed.

Lemma acinar_segment_never_raises_witness :
  fst (create_seg_cells (fun _ => 0) (mkDseg 3 3 acinar) init_state) = Ok tt.
Proof.
  apply (acinar_segment_never_raises (fun _ => 0) (mkDseg 3 3 acinar)
                                     init_state);
    [reflexivity | simpl; lia | simpl; lia].
Defined.

(** ** Where the candidates lie *)

Lemma sum_squares_nonneg x y z : 0 <= x * x + y * y + z * z.
Proof. nra. Qed.

Lemma sin_cos_square a : sin a * sin a + cos a * cos a = 1.
Proof. exact (sin2_cos2 a). Qed.

Lemma candidate_acinar_point rng s g k a :
  ctype s = acinar -> candidate_at rng s g k = Ok a ->
  let a1 := 0.0 + (2.0 * PI - 0.0) * rng k in
  let a2 := 0.0 + (0.8 * PI - 0.0) * rng (S k) in
  let r := 3.5 * C_RADIUS in
  a = AcinarTry a1 a2
        (vadd (g_in g)
              (mkVector (r * sin a2 * cos a1) (r * sin a2 * sin a1)
                        (1.5 * r * cos a2))).
Proof.
  unfold candidate_at, gen_try, acinar_try, bind, uniform, ret.
  intros ->. simpl. intros [= <-]. reflexivity.
Qed.

(** X13: with unit draws, an acinar candidate lies on the ellipsoid around
    the segment's inner endpoint with semi-axes 3.5, 3.5 and 5.25 seed
    radii (the sphere of radius [3.5 * C_RADIUS] stretched by 1.5 along z);
    its height above that endpoint is at least [5.25 * cos(0.8 pi)], which
    leaves out the cap around the duct, and its distance from the endpoint
    is between 3.5 and 5.25. *)
Theorem acinar_candidate_on_ellipsoid (rng : nat -> R) (Hu : unit_draws rng)
  (s : cDseg) (g : SegGeom) (k : nat) (a : Attempt)
  (Ht : ctype s = acinar) (Ha : candidate_at rng s g k = Ok a) :
  let v := vsub (attempt_point a) (g_in g) in
  vx v * vx v + vy v * vy v + (vz v / 1.5) * (vz v / 1.5)
  = (3.5 * C_RADIUS) * (3.5 * C_RADIUS) /\
  5.25 * cos (0.8 * PI) <= vz v <= 5.25 /\
  3.5 <= length v <= 5.25.
Proof.
  pose proof (candidate_acinar_point rng s g k a Ht Ha) as Hp.
  cbv zeta in Hp. rewrite Hp. cbv zeta. unfold C_RADIUS.
  set (a1 := 0.0 + (2.0 * PI - 0.0) * rng k).
  set (a2 := 0.0 + (0.8 * PI - 0.0) * rng (S k)).
  pose proof (sin_cos_square a1) as H1.
  pose proof (sin_cos_square a2) as H2.
  pose proof PI_RGT_0 as Hpi.
  pose proof (unit_scaled (0.8 * PI) (rng (S k)) ltac:(lra) (Hu (S k)))
    as Ha2.
  assert (Hr2 : 0 <= a2 <= 0.8 * PI) by (subst a2; lra).
  assert (Hcos : cos (0.8 * PI) <= cos a2 <= 1).
  { split; [|apply COS_bound].
    apply cos_decr_1; lra. }
  unfold length, vsub, vadd, attempt_point. simpl.
  set (cx := vx (g_in g)). set (cy := vy (g_in g)). set (cz := vz (g_in g)).
  set (S1 := sin a1) in *. set (C1 := cos a1) in *.
  set (S2 := sin a2) in *. set (C2 := cos a2) in *.
  assert (Hxy : (cx + 3.5 * 1 * S2 * C1 - cx) * (cx + 3.5 * 1 * S2 * C1 - cx)
                + (cy + 3.5 * 1 * S2 * S1 - cy)
                  * (cy + 3.5 * 1 * S2 * S1 - cy)
                = 12.25 * (S2 * S2)).
  { replace (12.25 * (S2 * S2))
      with (12.25 * (S2 * S2) * (S1 * S1 + C1 * C1))
      by (rewrite H1; lra).
    lra. }
  assert (HC2 : 0 <= C2 * C2 <= 1) by nra.
  assert (HS2 : S2 * S2 = 1 - C2 * C2) by lra.
  split; [|split].
  - replace ((cz + 1.5 * (3.5 * 1) * C2 - cz) / 1.5
             * ((cz + 1.5 * (3.5 * 1) * C2 - cz) / 1.5))
      with (12.25 * (C2 * C2)) by lra.
    rewrite Hxy. lra.
  - lra.
  - replace ((cz + 1.5 * (3.5 * 1) * C2 - cz)
             * (cz + 1.5 * (3.5 * 1) * C2 - cz))
      with (27.5625 * (C2 * C2)) by lra.
    rewrite Hxy, HS2. split.
    + rewrite <- (sqrt_square 3.5) by lra.
      apply sqrt_le_1_alt. lra.
    + rewrite <- (sqrt_square 5.25) by lra.
      apply sqrt_le_1_alt. lra.
Qed.

Lemma acinar_candidate_on_ellipsoid_witness :
  let v := vsub (mkVector 0 0 57.25) (mkVector 0.0 0.0 52.0) in
  3.5 <= length v <= 5.25.
Proof.
  intros v.
  pose proof (acinar_candidate_on_ellipsoid (fun _ => 0) zero_draws_unit
                (mkDseg 4 5 acinar)
                (mkGeom (mkVector 0.0 0.0 52.0) 45.0 52.0
                        (0.7 + C_OFFSET) (0.05 + C_OFFSET))
                0 (AcinarTry 0 0 (mkVector 0 0 57.25))
                eq_refl (stuck_candidate 0)) as H.
  cbv zeta in H. exact (proj2 (proj2 H)).
Defined.

Lemma cone_radius_shift z1 z12 r1 r2 c z :
  cone_radius z1 z12 (r1 + c) ((r2 + c) - (r1 + c)) z
  = cone_radius z1 z12 r1 (r2 - r1) z + c.
Proof. unfold cone_radius, Rdiv. ring. Qed.

Lemma DSEG_radius_at_most_4 :
  forall s, In s DSEG ->
            forall p_out, PTS_at (idx_out s) = Ok p_out -> radius p_out <= 4.
Proof.
  apply (DSEG_cases
           (fun s => forall p_out,
                PTS_at (idx_out s) = Ok p_out -> radius p_out <= 4));
    simpl; intros p_out [= <-]; simpl; lra.
Qed.

(** X14: with unit draws, every duct candidate of a run lies between the
    two duct walls: its distance from the duct axis is larger than the
    radius of the segment's inner-wall cone at the candidate's height and
    smaller than that of the outer-wall cone there (the same radius plus
    the wall offset [2 * C_OFFSET]). *)
Theorem duct_candidate_between_walls (rng : nat -> R) (Hu : unit_draws rng)
  (e : Event)
  (He : In e (trace (snd (create_cells rng init_state))))
  (Ht : ctype (ev_seg e) <> acinar) :
  exists p_out p_in a1 z r p,
    PTS_at (idx_out (ev_seg e)) = Ok p_out /\
    PTS_at (idx_in (ev_seg e)) = Ok p_in /\
    ev_try e = DuctTry a1 z r p /\
    sqrt (vx p * vx p + vy p * vy p) = r /\
    let wall := cone_radius (vz (position p_out))
                            (vz (position p_in) - vz (position p_out))
                            (radius p_out)
                            (radius p_in - radius p_out) z in
    wall < r < wall + 2.0 * C_OFFSET.
Proof.
  pose proof (create_cells_trace rng e He) as Hsam.
  destruct (sampled_duct rng e Hu Hsam Ht) as (g & Hg & Htab & Hok).
  destruct Hsam as (Hs & _).
  destruct (seg_geom_DSEG _ Hs) as (g' & Hg' & Hz & Hr & Hr2 & _).
  rewrite Hg in Hg'. injection Hg' as <-.
  destruct Htab as (po & pi & Hpo & Hpi & Ez1 & Ez2 & Er1 & Er2 & EC & ER).
  destruct Hok as (a1 & z & r & p & u1 & u2 & u3 & Htry & _ & _ & _ & _
                   & Hzin & Hrr & Hf & _ & Hrad).
  pose proof (DSEG_radius_at_most_4 _ Hs po Hpo) as H4.
  exists po, pi, a1, z, r, p.
  do 4 (split; [assumption|]).
  cbv zeta. rewrite <- Ez1, <- Ez2.
  rewrite Er1, Er2, cone_radius_shift in Hrr.
  set (wall := cone_radius (g_z1 g) (g_z2 g - g_z1 g) (radius po)
                           (radius pi - radius po) z) in *.
  assert (Hw : radius pi <= wall <= radius po).
  { apply cone_radius_range; rewrite ?ER in *; lra. }
  rewrite EC in *. rewrite Hrr.
  assert (H95 : 0.95 * (wall + 1.5) <= (0.95 + 0.1 * u3) * (wall + 1.5))
    by (apply Rmult_le_compat_r; lra).
  assert (H105 : (0.95 + 0.1 * u3) * (wall + 1.5) <= 1.05 * (wall + 1.5))
    by (apply Rmult_le_compat_r; lra).
  lra.
Qed.

Lemma first_event rng :
  exists a rest,
    candidate_at rng (mkDseg 0 1 striated)
                 (mkGeom (mkVector 0.0 0.0 10.0) 0.0 10.0
                         (4.0 + C_OFFSET) (3.7 + C_OFFSET)) 0 = Ok a /\
    trace (snd (create_cells rng init_state))
    = mkEvent (mkDseg 0 1 striated) a true :: rest.
Proof.
  set (s := mkDseg 0 1 striated).
  set (g := mkGeom (mkVector 0.0 0.0 10.0) 0.0 10.0
                   (4.0 + C_OFFSET) (3.7 + C_OFFSET)).
  assert (Hgood : good s g) by (right; unfold g_z12; simpl; lra).
  destruct (good_candidate rng s g 0 Hgood) as [a Ha].
  destruct (run_after_first_seed rng (traced (fun _ => True))
              (traced_refl _) (traced_trans _)) as (evs & Htr & _).
  { intros s' g' st'.
    destruct (seed_once_traced rng s' g' st') as (evs & Htr & _).
    exists evs. split; [assumption|]. apply Forall_forall. auto. }
  fold s g in Htr. exists a, evs. split; [exact Ha|].
  rewrite Htr, seed_once_eq.
  destruct RETRIES_pos as [n ->].
  rewrite retry_S. cbn [rpos init_state]. rewrite Ha. reflexivity.
Qed.

Lemma duct_candidate_between_walls_witness :
  exists e a1 z r p,
    In e (trace (snd (create_cells (fun _ => 0) init_state))) /\
    ev_try e = DuctTry a1 z r p /\
    sqrt (vx p * vx p + vy p * vy p) = r.
Proof.
  destruct (first_event (fun _ => 0)) as (a & rest & _ & Htr).
  assert (He : In (mkEvent (mkDseg 0 1 striated) a true)
                  (trace (snd (create_cells (fun _ => 0) init_state))))
    by (rewrite Htr; now left).
  destruct (duct_candidate_between_walls (fun _ => 0) zero_draws_unit
              _ He ltac:(discriminate))
    as (po & pi & a1 & z & r & p & _ & _ & Htry & Hrad & _).
  exists (mkEvent (mkDseg 0 1 striated) a true), a1, z, r, p.
  repeat split; assumption.
Defined.

(** ** More on the duct-wall builder *)

(** X15: the cone that [create_seg] adds between two endpoints has their
    distance as its depth and is located at their midpoint: its location is
    half that distance away from either endpoint. *)
Theorem create_seg_centred (p1 : Vector) (r1 : R) (p2 : Vector) (r2 : R) :
  exists l,
    create_seg p1 r1 p2 r2
    = Cone r1 r2 (length (vsub p2 p1)) l (vsub p2 p1) /\
    length (vsub l p1) = length (vsub p2 p1) / 2 /\
    length (vsub p2 l) = length (vsub p2 p1) / 2.
Proof.
  eexists. split; [reflexivity|].
  unfold length, vsub, vadd, vdiv. simpl.
  set (dx := vx p2 - vx p1). set (dy := vy p2 - vy p1).
  set (dz := vz p2 - vz p1).
  set (S := dx * dx + dy * dy + dz * dz).
  pose proof (sum_squares_nonneg dx dy dz) as HS. fold S in HS.
  pose proof (sqrt_pos S) as Hpos.
  pose proof (sqrt_sqrt S HS) as Hsq.
  assert (Hhalf : sqrt (S / 4) = sqrt S / 2)
    by (apply sqrt_lem_1; nra).
  split; rewrite <- Hhalf; f_equal; subst S dx dy dz; lra.
Qed.

Lemma duct_step_primitives offset prev s :
  (idx_out s < List.length PTS)%nat -> (idx_in s < List.length PTS)%nat ->
  exists m,
    duct_step offset prev s = Ok m /\
    primitives m = prev_primitives prev ++ segment_primitives offset s /\
    unions m = S (prev_unions prev).
Proof.
  intros Ho Hi.
  destruct (PTS_at_in_range _ Ho) as [po Hpo].
  destruct (PTS_at_in_range _ Hi) as [pi Hpi].
  unfold duct_step, segment_primitives. rewrite Hpo, Hpi.
  eexists. split; [reflexivity|].
  unfold combine, create_seg.
  destruct prev as [q|]; simpl; rewrite <- ?app_assoc; split;
    try reflexivity; lia.
Qed.

Lemma duct_loop_primitives offset segs :
  forall prev,
    Forall (fun s => (idx_out s < List.length PTS)%nat /\
                     (idx_in s < List.length PTS)%nat) segs ->
    segs <> [] ->
    exists m,
      duct_loop offset prev segs = Ok (Some m) /\
      primitives m
      = prev_primitives prev ++ flat_map (segment_primitives offset) segs /\
      S (unions m) = (prev_unions prev + 2 * List.length segs)%nat.
Proof.
  induction segs as [|s rest IH]; intros prev Hv Hne; [contradiction|].
  inversion Hv as [|? ? [Ho Hi] Hrest]; subst.
  destruct (duct_step_primitives offset prev s Ho Hi)
    as (m & Hstep & Hprims & Hun).
  cbn [duct_loop]. rewrite Hstep.
  destruct rest as [|s' rest'].
  - exists m. cbn [duct_loop flat_map List.length].
    rewrite app_nil_r. repeat split; [assumption|lia].
  - destruct (IH (Some m) Hrest ltac:(discriminate))
      as (m' & Hloop & Hp' & Hun').
    exists m'. split; [exact Hloop|]. split.
    + rewrite Hp'. cbn [prev_primitives]. rewrite Hprims.
      change (flat_map (segment_primitives offset) (s :: s' :: rest'))
        with (segment_primitives offset s
              ++ flat_map (segment_primitives offset) (s' :: rest')).
      now rewrite <- app_assoc.
    + cbn [prev_unions] in Hun'.
      change (List.length (s :: s' :: rest'))
        with (S (List.length (s' :: rest'))). lia.
Qed.

Lemma flat_map_pairs {A B} (f : A -> list B) (l : list A) :
  (forall x, In x l -> exists a b, f x = [a; b]) ->
  forall k x,
    nth_error l k = Some x ->
    nth_error (flat_map f l) (2 * k) = nth_error (f x) 0 /\
    nth_error (flat_map f l) (2 * k + 1) = nth_error (f x) 1.
Proof.
  induction l as [|y l IH]; intros Hf k x Hk; [destruct k; discriminate|].
  destruct (Hf y (or_introl eq_refl)) as (a & b & Hy).
  destruct k as [|k].
  - injection Hk as <-. cbn [flat_map]. rewrite Hy. split; reflexivity.
  - cbn [nth_error] in Hk.
    destruct (IH (fun z Hz => Hf z (or_intror Hz)) k x Hk) as [H0 H1].
    cbn [flat_map]. rewrite Hy.
    replace (2 * S k)%nat with (S (S (2 * k))) by lia.
    replace (S (S (2 * k)) + 1)%nat with (S (S (2 * k + 1))) by lia.
    split; [exact H0|exact H1].
Qed.

Lemma outer_acinus_cases offset s :
  (outer_acinus offset s = true /\ offset <> 0 /\ ctype s = acinar) \/
  (outer_acinus offset s = false /\ (offset = 0 \/ ctype s <> acinar)).
Proof.
  unfold outer_acinus, Reqb.
  destruct (Req_dec_T offset 0) as [H0|H0]; simpl.
  - right. auto.
  - destruct (ctype s); simpl;
      [left; auto | right; split; [reflexivity|right; discriminate] ..].
Qed.

(** X16: run over any non-empty list of [n] segments with valid endpoint
    indices, the loop of [create_duct] succeeds, calls [combine] [2n - 1]
    times, and creates [2n] primitives in this order: for the [k]-th
    segment a sphere of 4 subdivisions at the inner endpoint with radius
    [(1 + EPSILON) * r2], then the cone of [create_seg] from the outer to
    the inner endpoint with radii [radius + offset] and [r2]; here [r2] is
    [A_RADIUS] and the sphere is scaled by (1, 1, 1.5) when the offset is
    nonzero and the segment acinar, and otherwise [r2] is the inner
    endpoint's radius plus the offset and the sphere is unscaled. *)
Theorem duct_loop_collects (offset : R) (segs : list cDseg)
  (Hv : Forall (fun s => (idx_out s < List.length PTS)%nat /\
                         (idx_in s < List.length PTS)%nat) segs)
  (Hne : segs <> []) :
  exists m,
    duct_loop offset None segs = Ok (Some m) /\
    List.length (primitives m) = (2 * List.length segs)%nat /\
    S (unions m) = (2 * List.length segs)%nat /\
    forall k s,
      nth_error segs k = Some s ->
      exists p_out p_in r2 scale,
        PTS_at (idx_out s) = Ok p_out /\ PTS_at (idx_in s) = Ok p_in /\
        nth_error (primitives m) (2 * k)
        = Some (IcoSphere 4 ((1.0 + EPSILON) * r2) (position p_in) scale) /\
        nth_error (primitives m) (2 * k + 1)
        = Some (Cone (radius p_out + offset) r2
                     (length (vsub (position p_in) (position p_out)))
                     (vadd (position p_out)
                           (vdiv (vsub (position p_in) (position p_out)) 2.0))
                     (vsub (position p_in) (position p_out))) /\
        (offset <> 0 -> ctype s = acinar ->
           r2 = A_RADIUS /\ scale = mkVector 1.0 1.0 1.5) /\
        (offset = 0 \/ ctype s <> acinar ->
           r2 = radius p_in + offset /\ scale = mkVector 1 1 1).
Proof.
  destruct (duct_loop_primitives offset segs None Hv Hne)
    as (m & Hloop & Hp & Hun).
  cbn [prev_primitives prev_unions app Nat.add] in Hp, Hun.
  assert (Hpair : forall x, In x segs ->
            exists a b, segment_primitives offset x = [a; b]).
  { intros x Hx. rewrite Forall_forall in Hv.
    destruct (Hv x Hx) as [Ho Hi].
    destruct (PTS_at_in_range _ Ho) as [po Hpo].
    destruct (PTS_at_in_range _ Hi) as [pi Hpi].
    unfold segment_primitives. rewrite Hpo, Hpi. eauto. }
  exists m. split; [exact Hloop|]. split; [|split; [exact Hun|]].
  - rewrite Hp. clear - Hpair.
    induction segs as [|x l IH]; [reflexivity|].
    destruct (Hpair x (or_introl eq_refl)) as (a & b & Hx).
    cbn [flat_map List.length]. rewrite Hx, length_app.
    rewrite (IH (fun z Hz => Hpair z (or_intror Hz))).
    cbn [List.length]. lia.
  - intros k s Hk.
    destruct (flat_map_pairs _ segs Hpair k s Hk) as [H0 H1].
    rewrite Hp, H0, H1.
    rewrite Forall_forall in Hv.
    destruct (Hv s (nth_error_In _ _ Hk)) as [Ho Hi].
    destruct (PTS_at_in_range _ Ho) as [po Hpo].
    destruct (PTS_at_in_range _ Hi) as [pi Hpi].
    unfold segment_primitives. rewrite Hpo, Hpi.
    exists po, pi. do 2 eexists.
    split; [reflexivity|]. split; [reflexivity|].
    split; [reflexivity|]. split; [reflexivity|].
    unfold duct_r2.
    destruct (outer_acinus_cases offset s) as [(-> & Hoff & Hac)|(-> & Hno)].
    + split; [intros _ _; split; reflexivity|].
      intros [?|?]; contradiction.
    + split; [|intros _; split; reflexivity].
      intros H1' H2'. destruct Hno; contradiction.
Qed.

Lemma DSEG_indices_valid :
  Forall (fun s => (idx_out s < List.length PTS)%nat /\
                   (idx_in s < List.length PTS)%nat) DSEG.
Proof. unfold DSEG. repeat constructor; simpl; lia. Qed.

Lemma duct_loop_collects_witness :
  exists m,
    duct_loop 0 None DSEG = Ok (Some m) /\
    List.length (primitives m) = 10%nat /\
    unions m = 9%nat.
Proof.
  destruct (duct_loop_collects 0 DSEG DSEG_indices_valid ltac:(discriminate))
    as (m & Hloop & Hlen & Hun & _).
  exists m. split; [exact Hloop|]. split; [exact Hlen|].
  simpl in Hun. lia.
Defined.

(** X17: for a non-negative wall offset, every joint sphere of
    [create_duct] is slightly larger than the end of the cone it joins: the
    cone's second radius is positive and the sphere's radius is
    [(1 + EPSILON)] times it. *)
Theorem joint_sphere_covers_cone_end (offset : R) (Hoff : 0 <= offset) :
  exists d,
    create_duct offset = Ok d /\
    forall k sub rad loc sc r1 r2 dep l t,
      nth_error (primitives (duct_mesh d)) (2 * k)
      = Some (IcoSphere sub rad loc sc) ->
      nth_error (primitives (duct_mesh d)) (2 * k + 1)
      = Some (Cone r1 r2 dep l t) ->
      0 < r2 /\ r2 < rad /\ rad = (1.0 + EPSILON) * r2.
Proof.
  destruct (Req_dec_T offset 0) as [H0|H0];
    (eexists; split; [run_create_duct; reflexivity|]);
    intros k sub rad loc sc r1 r2 dep l t Hs Hc;
    (destruct (le_lt_dec 5 k) as [Hk|Hk];
     [ exfalso;
       assert (Hn : nth_error
                      (primitives (duct_mesh
                         ltac:(match type of Hs with
                               | nth_error (primitives (duct_mesh ?d)) _ = _ =>
                                   exact d
                               end))) (2 * k) = None)
         by (apply nth_error_None; simpl; lia);
       rewrite Hn in Hs; discriminate
     | destruct k as [|[|[|[|[|k]]]]]; [ .. | lia];
       simpl in Hs, Hc; injection Hs as <- <- <- <-;
       injection Hc as <- <- <- <- <-;
       unfold EPSILON, A_RADIUS; repeat split; lra ]).
Qed.

Lemma joint_sphere_covers_cone_end_witness :
  exists d, create_duct 0 = Ok d.
Proof.
  destruct (joint_sphere_covers_cone_end 0 ltac:(lra)) as (d & Hd & _).
  exists d. exact Hd.
Defined.

(** ** The whole script *)

Lemma create_cells_places_one rng :
  (1 <= List.length (cells (snd (create_cells rng init_state))))%nat.
Proof.
  set (s := mkDseg 0 1 striated).
  set (g := mkGeom (mkVector 0.0 0.0 10.0) 0.0 10.0
                   (4.0 + C_OFFSET) (3.7 + C_OFFSET)).
  assert (Hgood : good s g) by (right; unfold g_z12; simpl; lra).
  destruct (first_fit_on_empty rng s g init_state Hgood eq_refl)
    as (a & _ & Hcc).
  destruct (run_after_first_seed rng extends extends_refl extends_trans
              (seed_once_extends rng)) as [added Hadd].
  fold s g in Hadd. rewrite Hcc in Hadd.
  assert (Hstep : cells_at_centers (snd (create_cells rng init_state))).
  { apply (cells_loop_lift rng
             (fun a b => cells_at_centers a -> cells_at_centers b));
      [auto | auto | | reflexivity].
    intros s' g' _ _ st'. apply seed_once_cells_at_centers. }
  unfold cells_at_centers in Hstep.
  rewrite <- (length_map cell_location), Hstep, Hadd. simpl. lia.
Qed.

(** X18: for every random stream the script runs to its end without an
    exception. It leaves gravity off, an inner wall named "InnerWall"
    (remeshed, normals as built) and an outer wall named "OuterWall"
    (remeshed, normals flipped), both collision objects in the "Duct"
    collection and each made of ten primitives, and between 1 and 250
    cells. *)
Theorem main_completes (rng : nat -> R) :
  exists inner outer cs,
    main rng
    = Ok (mkScene (mkVector 0 0 0)
                  [mkDuct "InnerWall" (Remesh 7 inner) true "Duct";
                   mkDuct "OuterWall" (FlipNormals (Remesh 7 outer)) true
                          "Duct"]
                  cs) /\
    List.length (primitives inner) = 10%nat /\
    List.length (primitives outer) = 10%nat /\
    (1 <= List.length cs <= 250)%nat.
Proof.
  assert (H0 : 0.0 = 0) by lra.
  assert (H3 : 2.0 * C_OFFSET <> 0) by (unfold C_OFFSET, C_RADIUS; lra).
  pose proof (cells_loop_ok rng DSEG (incl_refl _) init_state) as Hok.
  pose proof (create_cells_places_one rng) as H1.
  pose proof (cells_loop_bounded rng (fun x => List.length (cells x)) 1
                (fun s g st => proj2 (proj2 (seed_once_cost rng s g st)))
                DSEG init_state) as H250.
  unfold main. fold (create_cells rng) in Hok, H250.
  destruct (create_cells rng init_state) as [[[]|e] st];
    [|discriminate Hok].
  run_create_duct.
  do 3 eexists. split; [reflexivity|].
  split; [reflexivity|]. split; [reflexivity|].
  simpl in H1, H250. lia.
Qed.
